(** * MIRA chatbot: a shallow embedding of [index.tsx] and of its sibling
    revision, and the properties of the message router, the reminder store
    and the voice bridges.

    The page is event driven and single threaded.  Every handler of the
    source is embedded as a computation in a state-and-exception monad over
    one record [State] that holds the module-level variables of the script,
    the parts of the DOM the script touches, the local key-value store, and
    the log of calls made to the platform (speech synthesis, speech
    recognition, the remote chat session, the console).

    Strings are JavaScript strings whose code units are below 256
    (ISO 8859-1): a Rocq [string] is read as the sequence of its code
    units. *)

From Stdlib Require Import ZArith Ascii String List Bool Lia Decimal DecimalString DecimalZ.
From stdpp Require Import base option list gmap strings.

Local Open Scope Z_scope.

(** ** JavaScript string primitives used by the script *)

Module JS.

(** Code unit of a character. *)
Definition code (c : ascii) : N := N_of_ascii c.

(** [String.prototype.toLowerCase] on one code unit below 256: the ASCII
    capitals and the capitals of the Latin-1 supplement (U+00C0..U+00DE
    without the multiplication sign U+00D7) move up by 32. *)
Definition lower_char (c : ascii) : ascii :=
  let n := code c in
  if ((65 <=? n) && (n <=? 90))%N then ascii_of_N (n + 32)
  else if ((192 <=? n) && (n <=? 222) && negb (n =? 215))%N
       then ascii_of_N (n + 32)
       else c.

Fixpoint toLowerCase (s : string) : string :=
  match s with
  | EmptyString => EmptyString
  | String c r => String (lower_char c) (toLowerCase r)
  end.

(** [s.startsWith(searchString)]. *)
Fixpoint startsWith (s searchString : string) {struct searchString} : bool :=
  match searchString, s with
  | EmptyString, _ => true
  | String _ _, EmptyString => false
  | String p ps, String c cs => Ascii.eqb c p && startsWith cs ps
  end.

(** [s.substring(start)]: the code units from index [start] (clamped to
    the length) to the end. *)
Fixpoint substring (s : string) (start : nat) {struct start} : string :=
  match start, s with
  | O, _ => s
  | S _, EmptyString => EmptyString
  | S n, String _ r => substring r n
  end.

(** WhiteSpace and LineTerminator code units below 256: TAB, LF, VT, FF,
    CR, SPACE and NO-BREAK SPACE. *)
Definition is_white_space (c : ascii) : bool :=
  let n := code c in
  ((9 <=? n) && (n <=? 13) || (n =? 32) || (n =? 160))%N.

Fixpoint trimStart (s : string) : string :=
  match s with
  | EmptyString => EmptyString
  | String c r => if is_white_space c then trimStart r else s
  end.

Fixpoint trimEnd (s : string) : string :=
  match s with
  | EmptyString => EmptyString
  | String c r =>
      match trimEnd r with
      | EmptyString => if is_white_space c then EmptyString
                       else String c EmptyString
      | r' => String c r'
      end
  end.

(** [s.trim()]. *)
Definition trim (s : string) : string := trimStart (trimEnd s).

(** ToBoolean on a string: only the empty string is falsy. *)
Definition truthy (s : string) : bool :=
  match s with EmptyString => false | String _ _ => true end.

(** The character U+0022. *)
Definition quotation_mark : ascii := "034"%char.

End JS.

(** ** Data model *)

(** [type Reminder = {id: number; text: string}].  The id is a time value
    ([Date.now()]), an integer number of milliseconds. *)
Record Reminder := { id : Z; text : string }.

Global Instance Reminder_eq_dec : EqDecision Reminder.
Proof. solve_decision. Defined.

(** ** The platform's JSON on reminder lists *)

(** [JSON.stringify] on a [Reminder[]] and [JSON.parse] on the texts of that
    shape.  An id is printed as [Number::toString] prints an integral number
    of magnitude below 10^21 (time values are bounded by 8.64e15): in plain
    decimal.  [parse] returns [None] on a text that is not a JSON array of
    [{"id":<integer>,"text":<string>}] objects written without insignificant
    white space; on malformed text that is the SyntaxError of [JSON.parse],
    and well-formed documents of another shape are outside this model. *)
Module JSON.
Import JS.

Definition dq : string := String quotation_mark EmptyString.

Definition number (z : Z) : string := NilZero.string_of_int (Z.to_int z).

Definition hex_digit (n : N) : ascii :=
  if (n <? 10)%N then ascii_of_N (48 + n) else ascii_of_N (87 + n).

(** QuoteJSONString, one code unit. *)
Definition quote_char (c : ascii) : string :=
  let n := code c in
  if (n =? 8)%N then "\b"
  else if (n =? 9)%N then "\t"
  else if (n =? 10)%N then "\n"
  else if (n =? 12)%N then "\f"
  else if (n =? 13)%N then "\r"
  else if (n =? 34)%N then String "\" dq
  else if (n =? 92)%N then "\\"
  else if (n <? 32)%N
       then "\u00" +:+ String (hex_digit (n / 16)) (String (hex_digit (n mod 16)) EmptyString)
       else String c EmptyString.

Fixpoint quote_chars (s : string) : string :=
  match s with
  | EmptyString => EmptyString
  | String c r => quote_char c +:+ quote_chars r
  end.

Definition quote (s : string) : string := dq +:+ quote_chars s +:+ dq.

Definition object (r : Reminder) : string :=
  "{" +:+ quote "id" +:+ ":" +:+ number (id r) +:+ "," +:+
  quote "text" +:+ ":" +:+ quote (text r) +:+ "}".

Fixpoint elements (rs : list Reminder) : string :=
  match rs with
  | [] => EmptyString
  | [r] => object r
  | r :: rs' => object r +:+ "," +:+ elements rs'
  end.

Definition stringify (rs : list Reminder) : string :=
  "[" +:+ elements rs +:+ "]".

(** *** Parsing *)

Definition hex_value (c : ascii) : option N :=
  let n := code c in
  if ((48 <=? n) && (n <=? 57))%N then Some (n - 48)%N
  else if ((97 <=? n) && (n <=? 102))%N then Some (n - 87)%N
  else if ((65 <=? n) && (n <=? 70))%N then Some (n - 55)%N
  else None.

Definition simple_escape (e : ascii) : option ascii :=
  let n := code e in
  if (n =? 34)%N then Some quotation_mark
  else if (n =? 92)%N then Some "\"%char
  else if (n =? 47)%N then Some "/"%char
  else if (n =? 98)%N then Some (ascii_of_N 8)
  else if (n =? 102)%N then Some (ascii_of_N 12)
  else if (n =? 110)%N then Some (ascii_of_N 10)
  else if (n =? 114)%N then Some (ascii_of_N 13)
  else if (n =? 116)%N then Some (ascii_of_N 9)
  else None.

Definition cons_char (c : ascii) (p : option (string * string)) :=
  match p with
  | Some (s, rest) => Some (String c s, rest)
  | None => None
  end.

(** The characters of a string literal up to its closing quotation mark;
    a [\u] escape above U+00FF has no code unit in this model. *)
Fixpoint parse_chars (s : string) : option (string * string) :=
  match s with
  | EmptyString => None
  | String c r =>
      if Ascii.eqb c quotation_mark then Some (EmptyString, r)
      else if Ascii.eqb c "\"%char then
        match r with
        | EmptyString => None
        | String e r1 =>
            if Ascii.eqb e "u"%char then
              match r1 with
              | String h1 (String h2 (String h3 (String h4 r2))) =>
                  match hex_value h1, hex_value h2, hex_value h3, hex_value h4 with
                  | Some 0%N, Some 0%N, Some a, Some b =>
                      cons_char (ascii_of_N (16 * a + b)) (parse_chars r2)
                  | _, _, _, _ => None
                  end
              | _ => None
              end
            else
              match simple_escape e with
              | Some ch => cons_char ch (parse_chars r1)
              | None => None
              end
        end
      else if (code c <? 32)%N then None
      else cons_char c (parse_chars r)
  end.

Definition parse_string (s : string) : option (string * string) :=
  match s with
  | String c r => if Ascii.eqb c quotation_mark then parse_chars r else None
  | EmptyString => None
  end.

Definition digit_of (c : ascii) : option (uint -> uint) :=
  match c with
  | "0" => Some D0 | "1" => Some D1 | "2" => Some D2 | "3" => Some D3
  | "4" => Some D4 | "5" => Some D5 | "6" => Some D6 | "7" => Some D7
  | "8" => Some D8 | "9" => Some D9 | _ => None
  end%char.

Fixpoint digits (s : string) : uint * string :=
  match s with
  | EmptyString => (Nil, EmptyString)
  | String c r =>
      match digit_of c with
      | Some f => let (d, rest) := digits r in (f d, rest)
      | None => (Nil, s)
      end
  end.

(** JSON's [int]: a single 0, or a digit sequence that does not start
    with 0. *)
Definition well_formed_int (d : uint) : bool :=
  match d with
  | Nil => false
  | D0 Nil => true
  | D0 _ => false
  | _ => true
  end.

Definition parse_number (s : string) : option (Z * string) :=
  match s with
  | String c r =>
      if Ascii.eqb c "-"%char then
        let (d, rest) := digits r in
        if well_formed_int d then Some (Z.of_int (Neg d), rest) else None
      else
        let (d, rest) := digits s in
        if well_formed_int d then Some (Z.of_int (Pos d), rest) else None
  | EmptyString => None
  end.

(** Strip a literal prefix. *)
Fixpoint expect (p s : string) {struct p} : option string :=
  match p, s with
  | EmptyString, _ => Some s
  | String a p', String c s' => if Ascii.eqb a c then expect p' s' else None
  | String _ _, EmptyString => None
  end.

Definition parse_object (s : string) : option (Reminder * string) :=
  s1 ← expect ("{" +:+ quote "id" +:+ ":") s;
  '(n, s2) ← parse_number s1;
  s3 ← expect ("," +:+ quote "text" +:+ ":") s2;
  '(t, s4) ← parse_string s3;
  s5 ← expect "}" s4;
  Some ({| id := n; text := t |}, s5).

Fixpoint parse_elements (fuel : nat) (s : string)
  : option (list Reminder * string) :=
  match fuel with
  | O => None
  | S fuel' =>
      '(r, s1) ← parse_object s;
      match s1 with
      | String c s2 =>
          if Ascii.eqb c ","%char then
            '(rs, s3) ← parse_elements fuel' s2; Some (r :: rs, s3)
          else if Ascii.eqb c "]"%char then Some ([r], s2)
          else None
      | EmptyString => None
      end
  end.

Definition parse (s : string) : option (list Reminder) :=
  match s with
  | String c s1 =>
      if Ascii.eqb c "["%char then
        match s1 with
        | String c' EmptyString =>
            if Ascii.eqb c' "]"%char then Some [] else None
        | _ =>
            match parse_elements (String.length s1) s1 with
            | Some (rs, EmptyString) => Some rs
            | _ => None
            end
        end
      else None
  | EmptyString => None
  end.

End JSON.

(** ** The page: DOM, module-level variables and platform *)

(** The two classes a chat bubble is created with. *)
Inductive Sender := user | mira.

(** Children of the [#chat-history] element: chat bubbles and the loading
    indicator (the element with class [loading]). *)
Inductive Node :=
| Message (sender : Sender) (textContent : string)
| LoadingDots.

(** What [renderReminders] puts into the [#reminders-list] element: the
    paragraph [<p>You have no reminders.</p>] assigned for an empty list, or
    [li] elements, each with the markup assigned to its [innerHTML].  The
    markup is kept as the script writes it; what the browser's HTML parser
    makes of it is not modelled. *)
Inductive ListItem :=
| NoRemindersParagraph
| Li (innerHTML : string).

(** The template literal assigned to [li.innerHTML]: the reminder's text and
    id are interpolated as they are, without escaping. *)
Definition item_innerHTML (reminder : Reminder) : string :=
  let LF := String "010"%char EmptyString in
  LF +:+ "      <span>" +:+ text reminder +:+ "</span>" +:+
  LF +:+ "      <button class=" +:+ JSON.dq +:+ "delete-reminder-btn" +:+ JSON.dq +:+
  " data-id=" +:+ JSON.dq +:+ JSON.number (id reminder) +:+ JSON.dq +:+
  ">&times;</button>" +:+
  LF +:+ "    ".

(** [utterance.rate]: the literals 0.8 and 1.0. *)
Inductive Rate := rate_0_8 | rate_1_0.

(** Values thrown or passed to a rejected promise. *)
Inductive Error :=
| ServiceError (detail : string)
| SyntaxError.

(** Calls into the platform, in the order they are made. *)
Inductive Call :=
| synth_cancel
| synth_speak (utterance_text : string) (rate : Rate)
| recognition_start
| recognition_stop
| chat_sendMessage (message : string)
| console_error (label : string) (detail : string).

(** How the promise of [chat.sendMessage] settles. *)
Inductive Settlement :=
| Fulfilled (response_text : string)
| Rejected (reason : Error).

Global Instance Sender_eq_dec : EqDecision Sender.
Proof. solve_decision. Defined.
Global Instance Node_eq_dec : EqDecision Node.
Proof. solve_decision. Defined.
Global Instance Rate_eq_dec : EqDecision Rate.
Proof. solve_decision. Defined.
Global Instance Error_eq_dec : EqDecision Error.
Proof. solve_decision. Defined.
Global Instance Call_eq_dec : EqDecision Call.
Proof. solve_decision. Defined.

#[projections(primitive)]
Record State := mkState {
  (* DOM *)
  chatHistory : list Node;
  chatInput_value : string;
  slowModeToggle_checked : bool;
  remindersContainer_hidden : bool;
  remindersList : list ListItem;
  (* State Management *)
  isListening : bool;
  isSpeaking : bool;
  loadingMessageElement : bool;        (* [true] when not null *)
  reminders : list Reminder;
  (* platform *)
  localStorage : gmap string string;
  Date_now : Z;                        (* what [Date.now()] returns *)
  calls : list Call
}.

Definition set_chatHistory (f : list Node -> list Node) (st : State) : State :=
  mkState (f (chatHistory st)) (chatInput_value st) (slowModeToggle_checked st)
    (remindersContainer_hidden st) (remindersList st) (isListening st)
    (isSpeaking st) (loadingMessageElement st) (reminders st)
    (localStorage st) (Date_now st) (calls st).

Definition set_chatInput_value (v : string) (st : State) : State :=
  mkState (chatHistory st) v (slowModeToggle_checked st)
    (remindersContainer_hidden st) (remindersList st) (isListening st)
    (isSpeaking st) (loadingMessageElement st) (reminders st)
    (localStorage st) (Date_now st) (calls st).

(** Assigning [chatInput.value]: the value sanitization of a text [input]
    strips the line breaks LF and CR. *)
Fixpoint strip_newlines (s : string) : string :=
  match s with
  | EmptyString => EmptyString
  | String c r =>
      if ((JS.code c =? 10) || (JS.code c =? 13))%N then strip_newlines r
      else String c (strip_newlines r)
  end.

Definition assign_chatInput_value (v : string) (st : State) : State :=
  set_chatInput_value (strip_newlines v) st.

Definition set_remindersContainer_hidden (b : bool) (st : State) : State :=
  mkState (chatHistory st) (chatInput_value st) (slowModeToggle_checked st)
    b (remindersList st) (isListening st)
    (isSpeaking st) (loadingMessageElement st) (reminders st)
    (localStorage st) (Date_now st) (calls st).

Definition set_remindersList (l : list ListItem) (st : State) : State :=
  mkState (chatHistory st) (chatInput_value st) (slowModeToggle_checked st)
    (remindersContainer_hidden st) l (isListening st)
    (isSpeaking st) (loadingMessageElement st) (reminders st)
    (localStorage st) (Date_now st) (calls st).

Definition set_isListening (b : bool) (st : State) : State :=
  mkState (chatHistory st) (chatInput_value st) (slowModeToggle_checked st)
    (remindersContainer_hidden st) (remindersList st) b
    (isSpeaking st) (loadingMessageElement st) (reminders st)
    (localStorage st) (Date_now st) (calls st).

Definition set_isSpeaking (b : bool) (st : State) : State :=
  mkState (chatHistory st) (chatInput_value st) (slowModeToggle_checked st)
    (remindersContainer_hidden st) (remindersList st) (isListening st)
    b (loadingMessageElement st) (reminders st)
    (localStorage st) (Date_now st) (calls st).

Definition set_loadingMessageElement (b : bool) (st : State) : State :=
  mkState (chatHistory st) (chatInput_value st) (slowModeToggle_checked st)
    (remindersContainer_hidden st) (remindersList st) (isListening st)
    (isSpeaking st) b (reminders st)
    (localStorage st) (Date_now st) (calls st).

Definition set_reminders (rs : list Reminder) (st : State) : State :=
  mkState (chatHistory st) (chatInput_value st) (slowModeToggle_checked st)
    (remindersContainer_hidden st) (remindersList st) (isListening st)
    (isSpeaking st) (loadingMessageElement st) rs
    (localStorage st) (Date_now st) (calls st).

Definition set_localStorage (m : gmap string string) (st : State) : State :=
  mkState (chatHistory st) (chatInput_value st) (slowModeToggle_checked st)
    (remindersContainer_hidden st) (remindersList st) (isListening st)
    (isSpeaking st) (loadingMessageElement st) (reminders st)
    m (Date_now st) (calls st).

Definition set_Date_now (t : Z) (st : State) : State :=
  mkState (chatHistory st) (chatInput_value st) (slowModeToggle_checked st)
    (remindersContainer_hidden st) (remindersList st) (isListening st)
    (isSpeaking st) (loadingMessageElement st) (reminders st)
    (localStorage st) t (calls st).

Definition log_call (c : Call) (st : State) : State :=
  mkState (chatHistory st) (chatInput_value st) (slowModeToggle_checked st)
    (remindersContainer_hidden st) (remindersList st) (isListening st)
    (isSpeaking st) (loadingMessageElement st) (reminders st)
    (localStorage st) (Date_now st) (calls st ++ [c]).

(** The page as the script's top level leaves it: nothing displayed, the
    module-level variables at their initial values, over a given key-value
    store and clock.  The reminders panel and the slow-speech checkbox get
    their first state from the page's markup, which the script does not
    set; they are taken as hidden and unchecked. *)
Definition initial_state (store : gmap string string) (now : Z) : State :=
  mkState [] EmptyString false true [] false false false [] store now [].

(** ** Statements and handlers: state and exceptions *)

Inductive Completion (A : Type) :=
| Normal (a : A)
| Throw (e : Error).
Arguments Normal {A} a.
Arguments Throw {A} e.

Definition M (A : Type) : Type := State -> Completion A * State.

Global Instance M_ret : MRet M := fun A a st => (Normal a, st).

Global Instance M_bind : MBind M := fun A B k m st =>
  match m st with
  | (Normal a, st') => k a st'
  | (Throw e, st') => (Throw e, st')
  end.

Definition throw {A} (e : Error) : M A := fun st => (Throw e, st).

(** [try { body } catch (error) { handler error }]. *)
Definition try_catch {A} (body : M A) (handler : Error -> M A) : M A :=
  fun st =>
    match body st with
    | (Normal a, st') => (Normal a, st')
    | (Throw e, st') => handler e st'
    end.

Definition read {A} (f : State -> A) : M A := fun st => (Normal (f st), st).
Definition update (f : State -> State) : M unit := fun st => (Normal tt, f st).
Definition call (c : Call) : M unit := update (log_call c).

(** The state a computation ends in, and how it completes. *)
Definition exec {A} (m : M A) (st : State) : State := snd (m st).
Definition completion {A} (m : M A) (st : State) : Completion A := fst (m st).

(** [await p] for a promise that settles as [s]: its value, or its reason
    thrown at the [await]. *)
Definition await (s : Settlement) : M string :=
  match s with
  | Fulfilled response_text => mret response_text
  | Rejected reason => throw reason
  end.

(** What the console prints for an error value. *)
Definition describe (e : Error) : string :=
  match e with
  | ServiceError detail => detail
  | SyntaxError => "SyntaxError"
  end.

(** [array.forEach(f)]. *)
Fixpoint forEach {A} (l : list A) (f : A -> M unit) : M unit :=
  match l with
  | [] => mret tt
  | x :: l' => f x ;; forEach l' f
  end.

(** ** Core functions, the same text in both revisions of the script *)

Definition appendMessage (text : string) (sender : Sender) : M unit :=
  update (set_chatHistory (fun children => children ++ [Message sender text])).

Definition showLoadingIndicator : M unit :=
  loading ← read loadingMessageElement;
  if loading : bool then mret tt
  else
    update (set_loadingMessageElement true) ;;
    update (set_chatHistory (fun children => children ++ [LoadingDots])).

(** [loadingMessageElement.remove()] detaches the indicator; the script
    keeps at most one attached, the one the variable refers to. *)
Definition hideLoadingIndicator : M unit :=
  loading ← read loadingMessageElement;
  if loading : bool then
    update (set_chatHistory
              (List.filter (fun n => bool_decide (n <> LoadingDots)))) ;;
    update (set_loadingMessageElement false)
  else mret tt.

Definition speak (text : string) : M unit :=
  speaking ← read isSpeaking;
  (if speaking : bool then call synth_cancel else mret tt) ;;
  slow ← read slowModeToggle_checked;
  let rate := if slow : bool then rate_0_8 else rate_1_0 in
  call (synth_speak text rate).

(** [utterance.onstart] and [utterance.onend]. *)
Definition utterance_onstart : M unit := update (set_isSpeaking true).
Definition utterance_onend : M unit := update (set_isSpeaking false).

(** The click listener of the microphone button. *)
Definition micButton_click : M unit :=
  listening ← read isListening;
  if listening : bool then
    call recognition_stop
  else
    call synth_cancel ;;
    call recognition_start.

Definition recognition_onstart : M unit := update (set_isListening true).
Definition recognition_onend : M unit := update (set_isListening false).

(** An [async] function runs up to its first [await] when it is called; the
    rest runs when the awaited promise settles.  [Suspended] carries that
    rest. *)
Definition Suspended : Type := Settlement -> M unit.

Definition apology : string :=
  "I apologize, but I had a little trouble connecting. Could you please try again?".

(** The [try] statement of [sendMessageToMira] from its [await] on: what
    runs once the promise of [chat.sendMessage({message})] has settled.
    Both revisions have the same text here. *)
Definition sendMessageToMira_settled : Suspended := fun settlement =>
  try_catch
    (miraResponse ← await settlement;
     hideLoadingIndicator ;;
     appendMessage miraResponse mira ;;
     speak miraResponse)
    (fun error =>
       call (console_error "Error sending message to Gemini:"
               (describe error)) ;;
       hideLoadingIndicator ;;
       let errorMessage := apology in
       appendMessage errorMessage mira ;;
       speak errorMessage).

(** ** [index.tsx] *)

Module Index.

Definition renderReminders : M unit :=
  update (set_remindersList []) ;;
  rs ← read reminders;
  if (length rs =? 0)%nat then
    update (set_remindersList [NoRemindersParagraph])
  else
    forEach rs (fun reminder =>
      l ← read remindersList;
      update (set_remindersList (l ++ [Li (item_innerHTML reminder)]))).

Definition saveReminders : M unit :=
  rs ← read reminders;
  ls ← read localStorage;
  update (set_localStorage (<["reminders" := JSON.stringify rs]> ls)).

(** [JSON.parse] is modelled on the texts this script writes and on texts
    that are no JSON (see [JSON]); what is proved of loading is stated for
    those. *)
Definition loadReminders : M unit :=
  ls ← read localStorage;
  match ls !! "reminders" with
  | Some storedReminders =>
      if JS.truthy storedReminders then
        match JSON.parse storedReminders with
        | Some rs => update (set_reminders rs) ;; renderReminders
        | None => throw SyntaxError
        end
      else mret tt
  | None => mret tt
  end.

Definition addReminder (text : string) : M unit :=
  now ← read Date_now;
  let newReminder := {| id := now; text := text |} in
  rs ← read reminders;
  update (set_reminders (rs ++ [newReminder])) ;;
  saveReminders ;;
  renderReminders.

Definition deleteReminder (id' : Z) : M unit :=
  rs ← read reminders;
  update (set_reminders
            (List.filter (fun reminder => negb (id reminder =? id')) rs)) ;;
  saveReminders ;;
  renderReminders.

Definition trigger : string := "remind me to".

Definition confirmation_of (reminderText : string) : string :=
  "I've added a reminder for you: " +:+ JSON.dq +:+ reminderText +:+ JSON.dq.

Definition sendMessageToMira (message : string) : M (option Suspended) :=
  if negb (JS.truthy (JS.trim message)) then mret None
  else
    appendMessage message user ;;
    update (set_chatInput_value EmptyString) ;;
    if JS.startsWith (JS.toLowerCase message) trigger then
      let reminderText :=
        JS.trim (JS.substring message (String.length trigger)) in
      addReminder reminderText ;;
      let confirmation := confirmation_of reminderText in
      appendMessage confirmation mira ;;
      speak confirmation ;;
      mret None
    else
      showLoadingIndicator ;;
      call (chat_sendMessage message) ;;
      mret (Some sendMessageToMira_settled).

(** The submit listener of the chat form. *)
Definition chatForm_submit : M (option Suspended) :=
  v ← read chatInput_value;
  sendMessageToMira v.

Definition remindersButton_click : M unit :=
  update (set_remindersContainer_hidden false).

Definition closeRemindersButton_click : M unit :=
  update (set_remindersContainer_hidden true).

(** The click listener of the reminders list; the target is a delete
    button (with the number its [data-id] reads as) or anything else. *)
Definition remindersList_click (delete_button : option Z) : M unit :=
  match delete_button with
  | Some id' => deleteReminder id'
  | None => mret tt
  end.

Definition recognition_onresult (transcript : string)
  : M (option Suspended) :=
  update (assign_chatInput_value transcript) ;;
  sendMessageToMira transcript.

Definition recognition_onerror (event_error : string) : M unit :=
  call (console_error "Speech recognition error:" event_error) ;;
  let errorMessage := "I'm sorry, I couldn't hear that. Please try again." in
  appendMessage errorMessage mira ;;
  speak errorMessage.

Definition welcomeMessage : string :=
  "Hello, I'm MIRA. How can I help you today?".

(** The load listener, and the callback it schedules. *)
Definition window_load : M unit := loadReminders.

Definition welcome_timeout : M unit :=
  appendMessage welcomeMessage mira ;;
  speak welcomeMessage.

End Index.

(** ** The sibling revision of the script (no reminders, a speech error
    taxonomy) *)

Module Sibling.

Definition sendMessageToMira (message : string) : M (option Suspended) :=
  if negb (JS.truthy (JS.trim message)) then mret None
  else
    appendMessage message user ;;
    update (set_chatInput_value EmptyString) ;;
    showLoadingIndicator ;;
    call (chat_sendMessage message) ;;
    mret (Some sendMessageToMira_settled).

Definition network_message : string :=
  "I'm having trouble connecting to the voice service. Could you please check your internet connection and try again?".
Definition no_speech_message : string :=
  "I didn't seem to hear anything. Please try speaking again.".
Definition not_allowed_message : string :=
  "It seems I do not have permission to use your microphone. You may need to allow it in your browser settings.".
Definition default_message : string :=
  "I'm sorry, I couldn't quite understand that. Please try again.".

Definition recognition_onerror (event_error : string) : M unit :=
  call (console_error "Speech recognition error:" event_error) ;;
  if String.eqb event_error "aborted" then mret tt
  else
    let errorMessage :=
      if String.eqb event_error "network" then network_message
      else if String.eqb event_error "no-speech" then no_speech_message
      else if String.eqb event_error "not-allowed"
              || String.eqb event_error "service-not-allowed"
           then not_allowed_message
           else default_message in
    appendMessage errorMessage mira ;;
    speak errorMessage.

End Sibling.

(** ** Observations *)

(** The turns on display: the chat bubbles of [#chat-history], in order. *)
Definition turn_of (n : Node) : option (Sender * string) :=
  match n with
  | Message sender textContent => Some (sender, textContent)
  | LoadingDots => None
  end.

Definition transcript (st : State) : list (Sender * string) :=
  omap turn_of (chatHistory st).

(** The script keeps the indicator attached exactly while
    [loadingMessageElement] refers to it, and never attaches two. *)
Definition indicators (st : State) : nat :=
  length (List.filter (fun n => bool_decide (n = LoadingDots)) (chatHistory st)).

Definition indicator_consistent (st : State) : Prop :=
  indicators st = if loadingMessageElement st then 1%nat else 0%nat.

(** The messages forwarded to the remote session, and the texts handed to
    the synthesizer, among the platform calls. *)
Definition forwarded (cs : list Call) : list string :=
  omap (fun c => match c with chat_sendMessage m => Some m | _ => None end) cs.

Definition spoken (cs : list Call) : list string :=
  omap (fun c => match c with synth_speak t _ => Some t | _ => None end) cs.

(** The list a fresh session would read back from the key-value store. *)
Definition persisted (st : State) : option (list Reminder) :=
  localStorage st !! "reminders" ≫= JSON.parse.

(** The calls [speak] makes in a state. *)
Definition speak_calls (text : string) (st : State) : list Call :=
  (if isSpeaking st then [synth_cancel] else []) ++
  [synth_speak text (if slowModeToggle_checked st then rate_0_8 else rate_1_0)].

(** What [renderReminders] leaves in the list element for a given list. *)
Definition rendered (rs : list Reminder) : list ListItem :=
  match rs with
  | [] => [NoRemindersParagraph]
  | _ => List.map (fun reminder => Li (item_innerHTML reminder)) rs
  end.

(** The state after the store holds [rs] in memory, written through and
    rendered. *)
Definition store_written (rs : list Reminder) (st : State) : State :=
  set_remindersList (rendered rs)
    (set_localStorage (<["reminders" := JSON.stringify rs]> (localStorage st))
       (set_reminders rs st)).

(** No digit starts the text. *)
Definition not_digit_headed (s : string) : Prop :=
  match s with
  | EmptyString => True
  | String c _ => JSON.digit_of c = None
  end.

(** Only white space. *)
Definition all_white_space (s : string) : bool :=
  forallb JS.is_white_space (list_ascii_of_string s).

(** Operations of the Reminder Store, each add with the clock reading it
    happens at. *)
Inductive StoreOp :=
| op_add (now : Z) (text : string)
| op_delete (id' : Z).

Definition apply_op (op : StoreOp) : M unit :=
  match op with
  | op_add now text => update (set_Date_now now) ;; Index.addReminder text
  | op_delete id' => Index.deleteReminder id'
  end.

Definition apply_ops (ops : list StoreOp) : M unit := forEach ops apply_op.

Definition add_times (ops : list StoreOp) : list Z :=
  omap (fun op => match op with op_add now _ => Some now | op_delete _ => None end) ops.

(** ** The page as a whole: listeners run by events *)

Definition set_slowModeToggle_checked (b : bool) (st : State) : State :=
  mkState (chatHistory st) (chatInput_value st) b
    (remindersContainer_hidden st) (remindersList st) (isListening st)
    (isSpeaking st) (loadingMessageElement st) (reminders st)
    (localStorage st) (Date_now st) (calls st).

(** The script's state, the rests of the [sendMessageToMira] calls still
    waiting for their remote call to settle, and whether the greeting timer
    set by the load listener is still to fire. *)
Record Page := mkPage {
  page_state : State;
  page_pending : list Suspended;
  page_timer : bool
}.

Definition initial_page (store : gmap string string) (now : Z) : Page :=
  mkPage (initial_state store now) [] false.

(** What the browser and the user can make happen to the page of
    [index.tsx].  The first five change what the script reads; the others
    run one of its listeners or callbacks. *)
Inductive Event :=
| user_types (value : string)
| user_sets_slow_mode (checked : bool)
| clock_reads (now : Z)
| utterance_starts
| utterance_ends
| window_loads
| timer_fires
| form_submitted
| chat_settles (n : nat) (settlement : Settlement)
| mic_clicked
| recognition_starts
| recognition_ends
| recognition_results (transcript : string)
| recognition_fails (event_error : string)
| reminders_button_clicked
| close_button_clicked
| reminders_list_clicked (delete_button : option Z).

(** A listener runs to its end; what it throws is reported to the console
    by the browser and the page goes on in the state the listener left. *)
Definition run_listener (m : M unit) (p : Page) : Page :=
  mkPage (exec m (page_state p)) (page_pending p) (page_timer p).

(** A call of the async function: its rest, if it suspended, joins the
    pending ones. *)
Definition run_async (m : M (option Suspended)) (p : Page) : Page :=
  match m (page_state p) with
  | (Normal (Some rest), st) => mkPage st (page_pending p ++ [rest]) (page_timer p)
  | (_, st) => mkPage st (page_pending p) (page_timer p)
  end.

(** The [n]-th of the pending rests, if there are that many. *)
Definition pending_rest (p : Page) (n : nat) : option Suspended :=
  page_pending p !! n.

Definition handle (e : Event) (p : Page) : Page :=
  match e with
  | user_types value => run_listener (update (assign_chatInput_value value)) p
  | user_sets_slow_mode checked =>
      run_listener (update (set_slowModeToggle_checked checked)) p
  | clock_reads now => run_listener (update (set_Date_now now)) p
  | utterance_starts => run_listener utterance_onstart p
  | utterance_ends => run_listener utterance_onend p
  | window_loads =>
      (* loadReminders(); setTimeout(..., 500): the timer is set only if
         loadReminders returns *)
      match Index.window_load (page_state p) with
      | (Normal _, st) => mkPage st (page_pending p) true
      | (Throw _, st) => mkPage st (page_pending p) (page_timer p)
      end
  | timer_fires =>
      if page_timer p then
        mkPage (exec Index.welcome_timeout (page_state p)) (page_pending p) false
      else p
  | form_submitted => run_async Index.chatForm_submit p
  | chat_settles n settlement =>
      match pending_rest p n with
      | Some rest =>
          mkPage (exec (rest settlement) (page_state p))
            (delete n (page_pending p)) (page_timer p)
      | None => p
      end
  | mic_clicked => run_listener micButton_click p
  | recognition_starts => run_listener recognition_onstart p
  | recognition_ends => run_listener recognition_onend p
  | recognition_results transcript =>
      run_async (Index.recognition_onresult transcript) p
  | recognition_fails event_error =>
      run_listener (Index.recognition_onerror event_error) p
  | reminders_button_clicked => run_listener Index.remindersButton_click p
  | close_button_clicked => run_listener Index.closeRemindersButton_click p
  | reminders_list_clicked delete_button =>
      run_listener (Index.remindersList_click delete_button) p
  end.

(** The pages a start page can get to. *)
Inductive reachable_from (p0 : Page) : Page -> Prop :=
| reachable_start : reachable_from p0 p0
| reachable_step p e : reachable_from p0 p -> reachable_from p0 (handle e p).

Definition run (events : list Event) (p : Page) : Page :=
  foldl (fun p e => handle e p) p events.

(** The texts of MIRA's turns. *)
Definition mira_texts (turns : list (Sender * string)) : list string :=
  omap (fun turn => match turn with (mira, t) => Some t | (user, _) => None end)
    turns.

(** The texts of the user's turns. *)
Definition user_texts (turns : list (Sender * string)) : list string :=
  omap (fun turn => match turn with (user, t) => Some t | (mira, _) => None end)
    turns.

(** A text whose first code unit can start neither a JSON value ([[], [{],
    a quotation mark, [-], a digit, or the first letter of [true], [false],
    [null]) nor JSON white space (TAB, LF, CR, SPACE): [JSON.parse] throws a
    SyntaxError on it. *)
Definition starts_no_json_value (s : string) : bool :=
  match s with
  | EmptyString => false
  | String c _ =>
      let n := JS.code c in
      negb ((n =? 9) || (n =? 10) || (n =? 13) || (n =? 32)
            || (n =? 91) || (n =? 123) || (n =? 34) || (n =? 45)
            || ((48 <=? n) && (n <=? 57))
            || (n =? 116) || (n =? 102) || (n =? 110))%N
  end.

(** What the error handler of the sibling revision adds for an error code:
    nothing, or one turn of MIRA with a message, spoken. *)
Definition answers_with (event_error : string) (message : option string)
  : Prop :=
  forall st,
    let st' := exec (Sibling.recognition_onerror event_error) st in
    match message with
    | None =>
        transcript st' = transcript st /\ spoken (calls st') = spoken (calls st)
    | Some errorMessage =>
        transcript st' = transcript st ++ [(mira, errorMessage)]
        /\ spoken (calls st') = spoken (calls st) ++ [errorMessage]
    end.

(** The rate [speak] gives an utterance in a state. *)
Definition rate_of (st : State) : Rate :=
  if slowModeToggle_checked st then rate_0_8 else rate_1_0.

(** The list a session starting now over the page's key-value store would
    load. *)
Definition reload (st : State) : list Reminder :=
  reminders (exec Index.loadReminders (initial_state (localStorage st) (Date_now st))).

(** The store key holds what this script wrote, or nothing. *)
Definition written_by_script (store : gmap string string) : Prop :=
  store !! "reminders" = None
  \/ exists rs, store !! "reminders" = Some (JSON.stringify rs).

(** Memory and key-value store agree. *)
Definition in_sync (st : State) : Prop :=
  localStorage st !! "reminders" = Some (JSON.stringify (reminders st))
  \/ (localStorage st !! "reminders" = None /\ reminders st = []).

(** The list element shows the reminders, or is still as the markup left it
    while there are none. *)
Definition list_shows_reminders (st : State) : Prop :=
  remindersList st = rendered (reminders st)
  \/ (remindersList st = [] /\ reminders st = []).

(** The states the core functions lead to. *)
Definition appended (text : string) (sender : Sender) (st : State) : State :=
  set_chatHistory (fun children => children ++ [Message sender text]) st.

Definition after_speak (text : string) (st : State) : State :=
  log_call (synth_speak text (rate_of st))
    (if isSpeaking st then log_call synth_cancel st else st).

Definition after_show (st : State) : State :=
  if loadingMessageElement st then st
  else set_chatHistory (fun children => children ++ [LoadingDots])
         (set_loadingMessageElement true st).

Definition after_hide (st : State) : State :=
  if loadingMessageElement st then
    set_loadingMessageElement false
      (set_chatHistory
         (List.filter (fun n => bool_decide (n <> LoadingDots))) st)
  else st.

Definition after_settled (settlement : Settlement) (st : State) : State :=
  match settlement with
  | Fulfilled response_text =>
      after_speak response_text (appended response_text mira (after_hide st))
  | Rejected reason =>
      after_speak apology
        (appended apology mira
           (after_hide
              (log_call (console_error "Error sending message to Gemini:"
                           (describe reason)) st)))
  end.

(** The primitive changes of state the listeners are made of, and their
    sequences.  A call other than [synth.speak] and [chat.sendMessage] is
    logged on its own; an utterance is spoken only together with the bubble
    that shows its text; a message is forwarded only together with its user
    turn, and only if it is neither blank nor a reminder command; the list
    in memory is replaced only by a store write or by what the key-value
    store holds. *)
Inductive change : State -> State -> Prop :=
| change_none st : change st st
| change_then st1 st2 st3 : change st1 st2 -> change st2 st3 -> change st1 st3
| change_input value st : change st (set_chatInput_value value st)
| change_slow_mode checked st : change st (set_slowModeToggle_checked checked st)
| change_clock now st : change st (set_Date_now now st)
| change_speaking b st : change st (set_isSpeaking b st)
| change_listening b st : change st (set_isListening b st)
| change_panel b st : change st (set_remindersContainer_hidden b st)
| change_user_turn text st : change st (appended text user st)
| change_say text st : change st (after_speak text (appended text mira st))
| change_show st : change st (after_show st)
| change_hide st : change st (after_hide st)
| change_call c st :
    (forall text rate, c <> synth_speak text rate) ->
    (forall message, c <> chat_sendMessage message) ->
    change st (log_call c st)
| change_store rs st : change st (store_written rs st)
| change_load stored rs st :
    localStorage st !! "reminders" = Some stored ->
    JSON.parse stored = Some rs ->
    change st (set_remindersList (rendered rs) (set_reminders rs st))
| change_forward message st :
    JS.truthy (JS.trim message) = true ->
    JS.startsWith (JS.toLowerCase message) Index.trigger = false ->
    change st
      (log_call (chat_sendMessage message)
         (after_show (set_chatInput_value EmptyString (appended message user st)))).

(** Every pending rest is the one rest [sendMessageToMira] has. *)
Definition pending_known (p : Page) : Prop :=
  Forall (fun rest => rest = sendMessageToMira_settled) (page_pending p).

(** * Properties *)

(** ** Strings *)

#[local] Arguments String.append !_ _ / : simpl nomatch.

Example toLowerCase_ex : JS.toLowerCase "Remind ME to" = "remind me to".
Proof. reflexivity. Qed.

Example trim_ex : JS.trim "  water the  plants  " = "water the  plants".
Proof. reflexivity. Qed.

Example substring_ex :
  JS.substring "Remind me to x" (String.length "remind me to") = " x".
Proof. reflexivity. Qed.

Lemma toLowerCase_length s : String.length (JS.toLowerCase s) = String.length s.
Proof. induction s as [|c s IH]; simpl; congruence. Qed.

Lemma toLowerCase_app s t :
  JS.toLowerCase (s +:+ t) = JS.toLowerCase s +:+ JS.toLowerCase t.
Proof. induction s as [|c s IH]; simpl; congruence. Qed.

Lemma startsWith_app p rest : JS.startsWith (p +:+ rest) p = true.
Proof.
  induction p as [|c p IH]; simpl; [done|].
  by rewrite Ascii.eqb_refl.
Qed.

Lemma substring_app p rest : JS.substring (p +:+ rest) (String.length p) = rest.
Proof. induction p as [|c p IH]; simpl; [by destruct rest|done]. Qed.

(** A message whose lower-cased text starts with [p] splits into a casing of
    [p] and the rest that [substring] keeps. *)
Lemma startsWith_toLowerCase_split message p :
  JS.startsWith (JS.toLowerCase message) p = true ->
  exists pre, message = pre +:+ JS.substring message (String.length p)
              /\ JS.toLowerCase pre = p.
Proof.
  revert message. induction p as [|c p IH]; intros message H.
  - exists EmptyString. by destruct message.
  - destruct message as [|a message]; simpl in H; [done|].
    apply andb_prop in H as [Ha H]. apply Ascii.eqb_eq in Ha.
    destruct (IH _ H) as (pre & Hm & Hp).
    exists (String a pre). simpl. split; [by rewrite <- Hm|by rewrite Ha, Hp].
Qed.

Lemma trimEnd_white_space s : all_white_space s = true -> JS.trimEnd s = EmptyString.
Proof.
  unfold all_white_space. induction s as [|c s IH]; simpl; [done|].
  intros [Hc Hs]%andb_prop. by rewrite (IH Hs), Hc.
Qed.

Lemma trim_white_space s : all_white_space s = true -> JS.trim s = EmptyString.
Proof. intros H. unfold JS.trim. by rewrite trimEnd_white_space. Qed.

(** ** JSON: what is written is read back *)

Example stringify_ex :
  JSON.parse (JSON.stringify [ {| id := 1730000000000; text := "call Sam" |};
                               {| id := -5; text := "a\b" +:+ JSON.dq |} ])
  = Some [ {| id := 1730000000000; text := "call Sam" |};
           {| id := -5; text := "a\b" +:+ JSON.dq |} ].
Proof. vm_compute. reflexivity. Qed.

Section JSON_roundtrip.
Import JSON.

Lemma append_assoc (a b c : string) : (a +:+ b) +:+ c = a +:+ b +:+ c.
Proof. induction a as [|x a IH]; simpl; congruence. Qed.

Lemma expect_app p rest : expect p (p +:+ rest) = Some rest.
Proof.
  induction p as [|c p IH]; simpl; [done|].
  by rewrite Ascii.eqb_refl.
Qed.

Lemma digits_string_of_uint d rest :
  not_digit_headed rest ->
  digits (NilEmpty.string_of_uint d +:+ rest) = (d, rest).
Proof.
  intros Hrest.
  induction d as [|d IH|d IH|d IH|d IH|d IH|d IH|d IH|d IH|d IH|d IH];
    simpl; try (by rewrite IH).
  destruct rest as [|c r]; simpl in *; [done|by rewrite Hrest].
Qed.

Lemma to_uint_well_formed p : well_formed_int (Pos.to_uint p) = true.
Proof.
  pose proof (DecimalPos.Unsigned.to_of (Pos.to_uint p)) as H.
  rewrite DecimalPos.Unsigned.of_to in H. simpl in H.
  pose proof (DecimalPos.Unsigned.to_uint_nonzero p) as Hz.
  pose proof (DecimalFacts.nzhead_nonzero (Pos.to_uint p)) as Hh.
  unfold unorm in H.
  destruct (nzhead (Pos.to_uint p)) eqn:E; rewrite H in *;
    try done; by destruct (Hh u).
Qed.

Lemma parse_number_unsigned s d rest :
  digits s = (d, rest) -> well_formed_int d = true ->
  parse_number s = Some (Z.of_int (Pos d), rest).
Proof.
  intros H Hw. destruct s as [|c r].
  - simpl in H. by inversion H; subst.
  - unfold parse_number. destruct (Ascii.eqb c "-"%char) eqn:Ec.
    + apply Ascii.eqb_eq in Ec. subst c. simpl in H.
      by inversion H; subst.
    + by rewrite H, Hw.
Qed.

Lemma parse_number_negative r d rest :
  digits r = (d, rest) -> well_formed_int d = true ->
  parse_number (String "-" r) = Some (Z.of_int (Neg d), rest).
Proof.
  intros H Hw. unfold parse_number.
  change (Ascii.eqb "-" "-") with true. cbv iota. by rewrite H, Hw.
Qed.

Lemma parse_number_number z rest :
  not_digit_headed rest ->
  parse_number (number z +:+ rest) = Some (z, rest).
Proof.
  intros Hrest. rewrite <- (DecimalZ.of_to z) at 2. unfold number.
  destruct z as [|p|p]; unfold Z.to_int.
  - apply parse_number_unsigned; [|done].
    apply (digits_string_of_uint zero rest Hrest).
  - pose proof (to_uint_well_formed p) as Hw.
    apply parse_number_unsigned; [|done].
    unfold NilZero.string_of_int, NilZero.string_of_uint.
    destruct (Pos.to_uint p) eqn:E; [done|..];
      rewrite <- E; by apply digits_string_of_uint.
  - pose proof (to_uint_well_formed p) as Hw.
    unfold NilZero.string_of_int, NilZero.string_of_uint.
    destruct (Pos.to_uint p) eqn:E; [done|..]; rewrite <- E in *;
      simpl String.append;
      (apply parse_number_negative; [|done]);
      by apply digits_string_of_uint.
Qed.

Lemma parse_chars_quote_chars s rest :
  parse_chars (quote_chars s +:+ dq +:+ rest) = Some (s, rest).
Proof.
  induction s as [|c s IH]; [done|].
  simpl quote_chars. rewrite append_assoc.
  revert IH. generalize (quote_chars s +:+ dq +:+ rest). intros tail IH.
  destruct c as [[] [] [] [] [] [] [] []]; simpl; by rewrite IH.
Qed.

Lemma parse_string_quote s rest :
  parse_string (quote s +:+ rest) = Some (s, rest).
Proof.
  unfold quote. rewrite !append_assoc. simpl.
  apply parse_chars_quote_chars.
Qed.

Lemma object_split r rest :
  object r +:+ rest =
  ("{" +:+ quote "id" +:+ ":") +:+ number (id r) +:+
  ("," +:+ quote "text" +:+ ":") +:+ quote (text r) +:+ "}" +:+ rest.
Proof. unfold object. by rewrite !append_assoc. Qed.

Lemma parse_object_object r rest :
  parse_object (object r +:+ rest) = Some (r, rest).
Proof.
  unfold parse_object. cbv [mbind option_bind].
  rewrite object_split, expect_app. cbv beta iota.
  rewrite parse_number_number by done. cbv beta iota.
  rewrite expect_app. cbv beta iota.
  rewrite parse_string_quote. cbv beta iota.
  rewrite expect_app. by destruct r.
Qed.

Lemma parse_elements_S fuel s :
  parse_elements (S fuel) s =
  match parse_object s with
  | Some (r, String c s2) =>
      if Ascii.eqb c ","%char then
        match parse_elements fuel s2 with
        | Some (rs, s3) => Some (r :: rs, s3)
        | None => None
        end
      else if Ascii.eqb c "]"%char then Some ([r], s2) else None
  | _ => None
  end.
Proof.
  simpl. by destruct (parse_object s) as [[r [|c s2]]|].
Qed.

Lemma parse_elements_elements rs : forall fuel rest,
  rs <> [] -> (length rs <= fuel)%nat ->
  parse_elements fuel (elements rs +:+ "]" +:+ rest) = Some (rs, rest).
Proof.
  induction rs as [|r rs IH]; intros fuel rest Hne Hfuel; [done|].
  destruct fuel as [|fuel]; [simpl in Hfuel; lia|].
  rewrite parse_elements_S.
  destruct rs as [|r' rs].
  - change (elements [r]) with (object r).
    by rewrite parse_object_object.
  - change (elements (r :: r' :: rs))
      with (object r +:+ "," +:+ elements (r' :: rs)).
    rewrite !append_assoc, parse_object_object.
    change ("," +:+ elements (r' :: rs) +:+ "]" +:+ rest)
      with (String "," (elements (r' :: rs) +:+ "]" +:+ rest)).
    cbv iota. change (Ascii.eqb "," ",") with true. cbv iota.
    rewrite IH; [done|done|simpl in *; lia].
Qed.

Lemma length_append (a b : string) :
  String.length (a +:+ b) = (String.length a + String.length b)%nat.
Proof. induction a as [|x a IH]; simpl; congruence. Qed.

Lemma length_elements rs x :
  (length rs <= String.length (elements rs +:+ x))%nat.
Proof.
  induction rs as [|r rs IH]; [simpl; lia|].
  destruct rs as [|r' rs].
  - simpl. lia.
  - change (elements (r :: r' :: rs))
      with (object r +:+ "," +:+ elements (r' :: rs)).
    rewrite !append_assoc, (length_append (object r)).
    change (length (r :: r' :: rs)) with (S (length (r' :: rs))).
    assert (1 <= String.length (object r))%nat by (simpl; lia).
    rewrite (length_append ",").
    change (String.length ",") with 1%nat. lia.
Qed.

(** [JSON.parse(JSON.stringify(reminders))] gives the list back. *)
Lemma parse_stringify rs : parse (stringify rs) = Some rs.
Proof.
  destruct rs as [|r rs]; [done|].
  unfold stringify, parse.
  change ("[" +:+ elements (r :: rs) +:+ "]")
    with (String "[" (elements (r :: rs) +:+ "]")).
  change (Ascii.eqb "[" "[") with true. cbv iota.
  pose proof (length_elements (r :: rs) "]") as Hlen.
  pose proof (parse_elements_elements (r :: rs)
                (String.length (elements (r :: rs) +:+ "]")) EmptyString
                ltac:(done) Hlen) as Hp.
  change ("]" +:+ EmptyString) with "]" in Hp. rewrite Hp.
  destruct (elements (r :: rs) +:+ "]") as [|c [|c' s]] eqn:E; try done.
  exfalso. destruct rs as [|r' rs]; simpl in E; discriminate E.
Qed.

Lemma stringify_truthy rs : JS.truthy (stringify rs) = true.
Proof. done. Qed.

End JSON_roundtrip.

#[local] Arguments JSON.parse : simpl never.
#[local] Arguments JSON.stringify : simpl never.

(** ** The reminder store *)

Section Store.
Import Index.

Lemma forEach_render rs : forall st,
  forEach rs (fun reminder =>
    l ← read remindersList;
    update (set_remindersList (l ++ [Li (item_innerHTML reminder)]))) st
  = (Normal tt,
     set_remindersList
       (remindersList st ++
        List.map (fun reminder => Li (item_innerHTML reminder)) rs) st).
Proof.
  induction rs as [|r rs IH]; intros st.
  - simpl. unfold mret, M_ret, set_remindersList. simpl.
    by rewrite app_nil_r.
  - simpl forEach. unfold mbind, M_bind, read, update. simpl.
    fold (@mbind M _). rewrite IH. unfold set_remindersList. simpl.
    by rewrite <- app_assoc.
Qed.

Lemma renderReminders_eq st :
  renderReminders st = (Normal tt, set_remindersList (rendered (reminders st)) st).
Proof.
  unfold renderReminders.
  unfold mbind at 1 2, M_bind, read, update; simpl.
  destruct (reminders st) as [|r rs] eqn:E; simpl; [done|].
  pose proof (forEach_render (r :: rs) (set_remindersList [] st)) as H.
  simpl in H. unfold mbind, M_bind, read, update in *. simpl in *.
  by rewrite H.
Qed.

Lemma saveReminders_eq st :
  saveReminders st =
  (Normal tt,
   set_localStorage
     (<["reminders" := JSON.stringify (reminders st)]> (localStorage st)) st).
Proof. done. Qed.

Lemma addReminder_eq text st :
  addReminder text st =
  (Normal tt,
   store_written (reminders st ++ [{| id := Date_now st; text := text |}]) st).
Proof.
  unfold addReminder.
  unfold mbind, M_bind, read, update. simpl.
  by rewrite renderReminders_eq.
Qed.

Lemma deleteReminder_eq id' st :
  deleteReminder id' st =
  (Normal tt,
   store_written
     (List.filter (fun reminder => negb (id reminder =? id')) (reminders st)) st).
Proof.
  unfold deleteReminder.
  unfold mbind, M_bind, read, update. simpl.
  by rewrite renderReminders_eq.
Qed.

Lemma persisted_store_written rs st :
  persisted (store_written rs st) = Some rs.
Proof.
  unfold persisted, store_written. simpl.
  rewrite lookup_insert_eq. simpl. apply parse_stringify.
Qed.

Lemma loadReminders_persisted store now rs :
  store !! "reminders" = Some (JSON.stringify rs) ->
  loadReminders (initial_state store now) =
  (Normal tt, set_remindersList (rendered rs)
                (set_reminders rs (initial_state store now))).
Proof.
  intros H. unfold loadReminders.
  unfold mbind at 1, M_bind, read. simpl. rewrite H.
  rewrite stringify_truthy, parse_stringify.
  unfold mbind, M_bind, update. simpl.
  by rewrite renderReminders_eq.
Qed.

End Store.

(** ** Core functions *)

Lemma transcript_app st l :
  omap turn_of (chatHistory st ++ l) = transcript st ++ omap turn_of l.
Proof. unfold transcript. apply omap_app. Qed.

Lemma omap_turn_of_detach l :
  omap turn_of (List.filter (fun n => bool_decide (n <> LoadingDots)) l)
  = omap turn_of l.
Proof.
  induction l as [|n l IH]; [done|].
  destruct n as [sender textContent|].
  - change (List.filter ?f (?x :: ?l))
      with (if f x then x :: List.filter f l else List.filter f l).
    cbv beta. rewrite bool_decide_true by done. simpl. f_equal. exact IH.
  - change (List.filter ?f (?x :: ?l))
      with (if f x then x :: List.filter f l else List.filter f l).
    cbv beta. rewrite bool_decide_false by (intros H; by apply H).
    exact IH.
Qed.

Lemma speak_calls_spoken text st : spoken (speak_calls text st) = [text].
Proof. unfold speak_calls. by destruct (isSpeaking st). Qed.

Lemma speak_calls_forwarded text st : forwarded (speak_calls text st) = [].
Proof. unfold speak_calls. by destruct (isSpeaking st). Qed.

Lemma speak_eq text st :
  exists st',
    speak text st = (Normal tt, st')
    /\ calls st' = calls st ++ speak_calls text st
    /\ chatHistory st' = chatHistory st
    /\ reminders st' = reminders st
    /\ localStorage st' = localStorage st.
Proof.
  unfold speak, speak_calls, mbind, M_bind, read, call, update.
  destruct st as [h v slow hid l lis [] load rs ls now cs]; simpl;
    eexists; (split; [reflexivity|]); simpl; rewrite <- ?app_assoc; done.
Qed.

Lemma hideLoadingIndicator_eq st :
  exists st',
    hideLoadingIndicator st = (Normal tt, st')
    /\ transcript st' = transcript st
    /\ calls st' = calls st
    /\ isSpeaking st' = isSpeaking st
    /\ slowModeToggle_checked st' = slowModeToggle_checked st
    /\ reminders st' = reminders st
    /\ localStorage st' = localStorage st.
Proof.
  unfold hideLoadingIndicator, mbind, M_bind, read, update, transcript.
  destruct st as [h v slow hid l lis sp [] rs ls now cs]; simpl;
    eexists; (split; [reflexivity|]); simpl;
    rewrite ?omap_turn_of_detach; done.
Qed.

(** The loading indicator: attached at most once, and detached whole. *)
Lemma filter_detach_none l :
  List.filter (fun n => bool_decide (n = LoadingDots))
    (List.filter (fun n => bool_decide (n <> LoadingDots)) l) = [].
Proof.
  induction l as [|n l IH]; [done|].
  destruct n as [sender textContent|]; simpl; exact IH.
Qed.

Lemma indicator_consistent_initial store now :
  indicator_consistent (initial_state store now).
Proof. done. Qed.

Lemma indicator_consistent_show st :
  indicator_consistent st -> indicator_consistent (exec showLoadingIndicator st).
Proof.
  unfold indicator_consistent, indicators, exec, showLoadingIndicator,
    mbind, M_bind, read, update.
  destruct st as [h v slow hid l lis sp [] rs ls now cs]; simpl; [done|].
  intros H. rewrite List.filter_app, length_app, H. done.
Qed.

Lemma indicator_consistent_hide st :
  indicator_consistent st ->
  indicator_consistent (exec hideLoadingIndicator st)
  /\ indicators (exec hideLoadingIndicator st) = 0%nat.
Proof.
  unfold indicator_consistent, indicators, exec, hideLoadingIndicator,
    mbind, M_bind, read, update.
  destruct st as [h v slow hid l lis sp [] rs ls now cs]; simpl.
  - by rewrite filter_detach_none.
  - done.
Qed.

Lemma indicator_consistent_append text sender st :
  indicator_consistent st ->
  indicator_consistent (exec (appendMessage text sender) st).
Proof.
  unfold indicator_consistent, indicators, exec, appendMessage, update.
  destruct st as [h v slow hid l lis sp load rs ls now cs]; simpl.
  intros H. rewrite List.filter_app, length_app, H. simpl. lia.
Qed.

(** Once the remote call has settled, one bubble of MIRA is added and
    spoken: the reply, or the apology after the error went to the console;
    the rest completes normally either way. *)
Lemma sendMessageToMira_settled_eq settlement st :
  let reply := match settlement with
               | Fulfilled response_text => response_text
               | Rejected _ => apology
               end in
  exists st',
    sendMessageToMira_settled settlement st = (Normal tt, st')
    /\ transcript st' = transcript st ++ [(mira, reply)]
    /\ spoken (calls st') = spoken (calls st) ++ [reply]
    /\ forwarded (calls st') = forwarded (calls st)
    /\ reminders st' = reminders st
    /\ localStorage st' = localStorage st.
Proof.
  intros reply. unfold sendMessageToMira_settled, try_catch.
  destruct settlement as [response_text|reason]; simpl in reply; subst reply.
  - unfold await, mbind, M_bind, mret, M_ret at 1.
    destruct (hideLoadingIndicator_eq st) as (st1 & -> & Ht & Hc & Hs & Hm & Hr & Hl).
    unfold appendMessage at 1, update.
    set (st2 := set_chatHistory _ st1).
    destruct (speak_eq response_text st2) as (st3 & -> & Hc3 & Hh3 & Hr3 & Hl3).
    exists st3. split; [done|].
    unfold transcript. rewrite Hh3, Hc3. subst st2. simpl.
    rewrite transcript_app, Ht.
    unfold spoken, forwarded. rewrite !omap_app.
    fold (spoken (speak_calls response_text (set_chatHistory
            (fun children => children ++ [Message mira response_text]) st1))).
    fold (forwarded (speak_calls response_text (set_chatHistory
            (fun children => children ++ [Message mira response_text]) st1))).
    rewrite speak_calls_spoken, speak_calls_forwarded, app_nil_r, Hc.
    rewrite Hr3, Hl3. simpl. by rewrite Hr, Hl.
  - unfold await, throw, mbind, M_bind, call, update.
    set (st0 := log_call _ st).
    destruct (hideLoadingIndicator_eq st0) as (st1 & -> & Ht & Hc & Hs & Hm & Hr & Hl).
    unfold appendMessage at 1, update.
    set (st2 := set_chatHistory _ st1).
    destruct (speak_eq apology st2) as (st3 & -> & Hc3 & Hh3 & Hr3 & Hl3).
    exists st3. split; [done|].
    unfold transcript. rewrite Hh3, Hc3. subst st2. simpl.
    rewrite transcript_app, Ht.
    unfold spoken, forwarded. rewrite !omap_app.
    fold (spoken (speak_calls apology (set_chatHistory
            (fun children => children ++ [Message mira apology]) st1))).
    fold (forwarded (speak_calls apology (set_chatHistory
            (fun children => children ++ [Message mira apology]) st1))).
    rewrite speak_calls_spoken, speak_calls_forwarded, app_nil_r, Hc.
    rewrite Hr3, Hl3. subst st0. simpl. rewrite Hr, Hl. simpl.
    unfold transcript. simpl. by rewrite !omap_app, !app_nil_r.
Qed.

(** ** The message router *)

Lemma trim_head_truthy c r :
  JS.is_white_space c = false -> JS.truthy (JS.trim (String c r)) = true.
Proof.
  intros Hc. unfold JS.trim. simpl.
  destruct (JS.trimEnd r); rewrite ?Hc; simpl; by rewrite Hc.
Qed.

Lemma lower_r_not_white_space c :
  JS.lower_char c = "r"%char -> JS.is_white_space c = false.
Proof. destruct c as [[] [] [] [] [] [] [] []]; by vm_compute. Qed.

Lemma trigger_truthy message :
  JS.startsWith (JS.toLowerCase message) Index.trigger = true ->
  JS.truthy (JS.trim message) = true.
Proof.
  destruct message as [|c r]; [done|].
  unfold Index.trigger. simpl. intros [Hc _]%andb_prop.
  apply Ascii.eqb_eq in Hc. by apply trim_head_truthy, lower_r_not_white_space.
Qed.

Lemma showLoadingIndicator_eq st :
  exists st',
    showLoadingIndicator st = (Normal tt, st')
    /\ transcript st' = transcript st
    /\ calls st' = calls st
    /\ reminders st' = reminders st
    /\ localStorage st' = localStorage st.
Proof.
  unfold showLoadingIndicator, mbind, M_bind, read, update, transcript.
  destruct st as [h v slow hid l lis sp [] rs ls now cs]; simpl;
    eexists; (split; [reflexivity|]); simpl; rewrite ?omap_app, ?app_nil_r; done.
Qed.

Section Router.
Import Index.

Lemma sendMessageToMira_blank message st :
  JS.truthy (JS.trim message) = false ->
  sendMessageToMira message st = (Normal None, st).
Proof. intros H. unfold sendMessageToMira. by rewrite H. Qed.

Lemma sendMessageToMira_trigger message st :
  JS.startsWith (JS.toLowerCase message) trigger = true ->
  let reminderText := JS.trim (JS.substring message (String.length trigger)) in
  exists st',
    sendMessageToMira message st = (Normal None, st')
    /\ reminders st' =
         reminders st ++ [{| id := Date_now st; text := reminderText |}]
    /\ transcript st' =
         transcript st ++ [(user, message); (mira, confirmation_of reminderText)]
    /\ spoken (calls st') = spoken (calls st) ++ [confirmation_of reminderText]
    /\ forwarded (calls st') = forwarded (calls st)
    /\ persisted st' = Some (reminders st').
Proof.
  intros Ht reminderText. unfold sendMessageToMira.
  rewrite (trigger_truthy _ Ht), Ht. change (negb true) with false. cbv beta iota.
  fold reminderText.
  unfold mbind, M_bind, appendMessage at 1, update at 1 2.
  rewrite addReminder_eq.
  unfold appendMessage, update.
  match goal with |- context [speak ?t ?s] =>
    destruct (speak_eq t s) as (st' & -> & Hc & Hh & Hr & Hl) end.
  exists st'. split; [done|].
  unfold transcript, persisted. rewrite Hr, Hh, Hc, Hl. simpl.
  unfold spoken, forwarded. rewrite !omap_app.
  match goal with |- context [speak_calls ?t ?s] =>
    fold (spoken (speak_calls t s)); fold (forwarded (speak_calls t s));
    rewrite (speak_calls_spoken t s), (speak_calls_forwarded t s) end.
  rewrite app_nil_r, lookup_insert_eq. simpl.
  rewrite parse_stringify. repeat split; try done.
  by rewrite <- app_assoc.
Qed.

Lemma sendMessageToMira_forward message st :
  JS.truthy (JS.trim message) = true ->
  JS.startsWith (JS.toLowerCase message) trigger = false ->
  exists st',
    sendMessageToMira message st = (Normal (Some sendMessageToMira_settled), st')
    /\ transcript st' = transcript st ++ [(user, message)]
    /\ forwarded (calls st') = forwarded (calls st) ++ [message]
    /\ spoken (calls st') = spoken (calls st)
    /\ reminders st' = reminders st
    /\ localStorage st' = localStorage st.
Proof.
  intros Hn Ht. unfold sendMessageToMira. rewrite Hn, Ht. change (negb true) with false. cbv beta iota.
  unfold mbind, M_bind, appendMessage at 1, update at 1 2.
  match goal with |- context [showLoadingIndicator ?s] =>
    destruct (showLoadingIndicator_eq s) as (st1 & -> & Htr & Hc & Hr & Hl) end.
  unfold call, update, mret, M_ret. eexists. split; [reflexivity|].
  unfold transcript in *. simpl. rewrite Htr, Hc, Hr, Hl. simpl.
  unfold spoken, forwarded. rewrite !omap_app. simpl.
  by rewrite app_nil_r.
Qed.

End Router.

Section Sibling_router.
Import Sibling.

Lemma sibling_sendMessageToMira_blank message st :
  JS.truthy (JS.trim message) = false ->
  sendMessageToMira message st = (Normal None, st).
Proof. intros H. unfold sendMessageToMira. by rewrite H. Qed.

Lemma sibling_sendMessageToMira_forward message st :
  JS.truthy (JS.trim message) = true ->
  exists st',
    sendMessageToMira message st = (Normal (Some sendMessageToMira_settled), st')
    /\ transcript st' = transcript st ++ [(user, message)]
    /\ forwarded (calls st') = forwarded (calls st) ++ [message]
    /\ spoken (calls st') = spoken (calls st).
Proof.
  intros Hn. unfold sendMessageToMira. rewrite Hn. change (negb true) with false. cbv beta iota.
  unfold mbind, M_bind, appendMessage at 1, update at 1 2.
  match goal with |- context [showLoadingIndicator ?s] =>
    destruct (showLoadingIndicator_eq s) as (st1 & -> & Htr & Hc & Hr & Hl) end.
  unfold call, update, mret, M_ret. eexists. split; [reflexivity|].
  unfold transcript in *. simpl. rewrite Htr, Hc. simpl.
  unfold spoken, forwarded. rewrite !omap_app. simpl.
  by rewrite app_nil_r.
Qed.

End Sibling_router.

(** * The claims *)

(** C1 — A submitted message that starts, in any letter case, with the
    trigger phrase "remind me to" is not forwarded to the remote session
    (no call is logged and nothing stays suspended on one); exactly one
    reminder is appended, whose text is the message without the phrase,
    trimmed, and whose id is the clock reading; and after the user's turn
    exactly one confirmation turn [I've added a reminder for you: "<text>"]
    is appended and spoken.  "Remind me to water the plants" yields the
    reminder text "water the plants". *)
Theorem trigger_message_creates_reminder :
  (forall message st,
     JS.startsWith (JS.toLowerCase message) "remind me to" = true ->
     exists st' pre rest,
       Index.sendMessageToMira message st = (Normal None, st')
       /\ message = pre +:+ rest
       /\ JS.toLowerCase pre = "remind me to"
       /\ reminders st' =
            reminders st ++ [{| id := Date_now st; text := JS.trim rest |}]
       /\ transcript st' =
            transcript st ++
            [(user, message);
             (mira, "I've added a reminder for you: " +:+ JSON.dq +:+
                    JS.trim rest +:+ JSON.dq)]
       /\ spoken (calls st') =
            spoken (calls st) ++
            ["I've added a reminder for you: " +:+ JSON.dq +:+
             JS.trim rest +:+ JSON.dq]
       /\ forwarded (calls st') = forwarded (calls st))
  /\ (forall st,
        exists st',
          Index.sendMessageToMira "Remind me to water the plants" st
          = (Normal None, st')
          /\ reminders st' =
               reminders st ++ [{| id := Date_now st; text := "water the plants" |}]
          /\ transcript st' =
               transcript st ++
               [(user, "Remind me to water the plants");
                (mira, "I've added a reminder for you: " +:+ JSON.dq +:+
                       "water the plants" +:+ JSON.dq)]
          /\ spoken (calls st') =
               spoken (calls st) ++
               ["I've added a reminder for you: " +:+ JSON.dq +:+
                "water the plants" +:+ JSON.dq]).
Proof.
  split.
  - intros message st Ht.
    destruct (sendMessageToMira_trigger message st Ht)
      as (st' & Hrun & Hr & Htr & Hs & Hf & _).
    destruct (startsWith_toLowerCase_split _ _ Ht) as (pre & Hm & Hp).
    exists st', pre, (JS.substring message (String.length Index.trigger)).
    by repeat split.
  - intros st.
    destruct (sendMessageToMira_trigger "Remind me to water the plants" st eq_refl)
      as (st' & Hrun & Hr & Htr & Hs & Hf & _).
    exists st'. by repeat split.
Qed.

Lemma trigger_message_creates_reminder_witness :
  exists st' pre rest,
    Index.sendMessageToMira "REMIND me to call Sam " (initial_state ∅ 1000)
    = (Normal None, st')
    /\ "REMIND me to call Sam " = pre +:+ rest
    /\ JS.toLowerCase pre = "remind me to"
    /\ reminders st' =
         reminders (initial_state ∅ 1000) ++
         [{| id := Date_now (initial_state ∅ 1000); text := JS.trim rest |}]
    /\ transcript st' =
         transcript (initial_state ∅ 1000) ++
         [(user, "REMIND me to call Sam ");
          (mira, "I've added a reminder for you: " +:+ JSON.dq +:+
                 JS.trim rest +:+ JSON.dq)]
    /\ spoken (calls st') =
         spoken (calls (initial_state ∅ 1000)) ++
         ["I've added a reminder for you: " +:+ JSON.dq +:+
          JS.trim rest +:+ JSON.dq]
    /\ forwarded (calls st') = forwarded (calls (initial_state ∅ 1000)).
Proof.
  apply (proj1 trigger_message_creates_reminder
           "REMIND me to call Sam " (initial_state ∅ 1000)).
  reflexivity.
Defined.

(** C2 — Whenever a turn reaches the remote session (in either revision of
    the script) and the call rejects: the call was made once; the rest of
    [sendMessageToMira] completes normally, so nothing is thrown to the
    caller; it appends and speaks exactly the fixed apology; and it makes no
    further call to the remote session. *)
Theorem remote_rejection_yields_apology :
  forall message st pending st1,
    Index.sendMessageToMira message st = (Normal (Some pending), st1)
    \/ Sibling.sendMessageToMira message st = (Normal (Some pending), st1) ->
    forwarded (calls st1) = forwarded (calls st) ++ [message]
    /\ forall reason st2,
         exists st3,
           pending (Rejected reason) st2 = (Normal tt, st3)
           /\ transcript st3 =
                transcript st2 ++
                [(mira, "I apologize, but I had a little trouble connecting. Could you please try again?")]
           /\ spoken (calls st3) =
                spoken (calls st2) ++
                ["I apologize, but I had a little trouble connecting. Could you please try again?"]
           /\ forwarded (calls st3) = forwarded (calls st2).
Proof.
  intros message st pending st1 H.
  assert (pending = sendMessageToMira_settled
          /\ forwarded (calls st1) = forwarded (calls st) ++ [message])
    as [-> Hf].
  { destruct (JS.truthy (JS.trim message)) eqn:Hn.
    - destruct H as [H|H].
      + destruct (JS.startsWith (JS.toLowerCase message) Index.trigger) eqn:Ht.
        * destruct (sendMessageToMira_trigger message st Ht) as (st' & Hrun & _).
          rewrite Hrun in H. discriminate H.
        * destruct (sendMessageToMira_forward message st Hn Ht)
            as (st' & Hrun & _ & Hf & _).
          rewrite Hrun in H. by inversion H; subst.
      + destruct (sibling_sendMessageToMira_forward message st Hn)
          as (st' & Hrun & _ & Hf & _).
        rewrite Hrun in H. by inversion H; subst.
    - destruct H as [H|H].
      + rewrite (sendMessageToMira_blank _ _ Hn) in H. discriminate H.
      + rewrite (sibling_sendMessageToMira_blank _ _ Hn) in H. discriminate H. }
  split; [done|]. intros reason st2.
  destruct (sendMessageToMira_settled_eq (Rejected reason) st2)
    as (st3 & Hrun & Htr & Hs & Hfw & _).
  exists st3. by repeat split.
Qed.

Lemma remote_rejection_yields_apology_witness :
  forwarded (calls (exec (Index.sendMessageToMira "How are you?") (initial_state ∅ 0)))
  = forwarded (calls (initial_state ∅ 0)) ++ ["How are you?"]
  /\ forall reason st2,
       exists st3,
         sendMessageToMira_settled (Rejected reason) st2 = (Normal tt, st3)
         /\ transcript st3 =
              transcript st2 ++
              [(mira, "I apologize, but I had a little trouble connecting. Could you please try again?")]
         /\ spoken (calls st3) =
              spoken (calls st2) ++
              ["I apologize, but I had a little trouble connecting. Could you please try again?"]
         /\ forwarded (calls st3) = forwarded (calls st2).
Proof.
  apply (remote_rejection_yields_apology "How are you?" (initial_state ∅ 0)
           sendMessageToMira_settled
           (exec (Index.sendMessageToMira "How are you?") (initial_state ∅ 0))).
  left. vm_compute. reflexivity.
Defined.

(** C3 — A submitted message whose trimmed text is not empty appends exactly
    one user turn at once.  Then either nothing stays suspended and the one
    assistant turn, the reminder confirmation, is already appended; or the
    request is pending, and once it settles, in whatever state the page then
    is, the rest appends exactly one assistant turn: the reply, or the fixed
    apology.  A message that is empty or only white space changes nothing:
    no turn, no reminder, no remote call. *)
Theorem one_user_turn_one_assistant_turn :
  forall message st,
    (JS.truthy (JS.trim message) = true ->
     exists pending st1,
       Index.sendMessageToMira message st = (Normal pending, st1)
       /\ match pending with
          | None =>
              exists reminderText,
                transcript st1 =
                  transcript st ++
                  [(user, message);
                   (mira, "I've added a reminder for you: " +:+ JSON.dq +:+
                          reminderText +:+ JSON.dq)]
          | Some rest =>
              transcript st1 = transcript st ++ [(user, message)]
              /\ forall settlement st2,
                   exists st3,
                     rest settlement st2 = (Normal tt, st3)
                     /\ transcript st3 =
                          transcript st2 ++
                          [(mira,
                            match settlement with
                            | Fulfilled response_text => response_text
                            | Rejected _ =>
                                "I apologize, but I had a little trouble connecting. Could you please try again?"
                            end)]
          end)
    /\ (JS.truthy (JS.trim message) = false ->
        Index.sendMessageToMira message st = (Normal None, st)).
Proof.
  intros message st. split.
  - intros Hn.
    destruct (JS.startsWith (JS.toLowerCase message) Index.trigger) eqn:Ht.
    + destruct (sendMessageToMira_trigger message st Ht)
        as (st' & Hrun & _ & Htr & _).
      exists None, st'. split; [done|]. eexists. exact Htr.
    + destruct (sendMessageToMira_forward message st Hn Ht)
        as (st' & Hrun & Htr & _).
      exists (Some sendMessageToMira_settled), st'. split; [done|].
      split; [done|]. intros settlement st2.
      destruct (sendMessageToMira_settled_eq settlement st2)
        as (st3 & Hrun3 & Htr3 & _).
      exists st3. split; [done|]. rewrite Htr3. by destruct settlement.
  - apply sendMessageToMira_blank.
Qed.

Lemma one_user_turn_one_assistant_turn_witness :
  (exists pending st1,
     Index.sendMessageToMira "  Good morning " (initial_state ∅ 0)
     = (Normal pending, st1)
     /\ match pending with
        | None =>
            exists reminderText,
              transcript st1 =
                transcript (initial_state ∅ 0) ++
                [(user, "  Good morning ");
                 (mira, "I've added a reminder for you: " +:+ JSON.dq +:+
                        reminderText +:+ JSON.dq)]
        | Some rest =>
            transcript st1 =
              transcript (initial_state ∅ 0) ++ [(user, "  Good morning ")]
            /\ forall settlement st2,
                 exists st3,
                   rest settlement st2 = (Normal tt, st3)
                   /\ transcript st3 =
                        transcript st2 ++
                        [(mira,
                          match settlement with
                          | Fulfilled response_text => response_text
                          | Rejected _ =>
                              "I apologize, but I had a little trouble connecting. Could you please try again?"
                          end)]
        end)
  /\ Index.sendMessageToMira "   " (initial_state ∅ 0)
     = (Normal None, initial_state ∅ 0).
Proof.
  split.
  - apply (proj1 (one_user_turn_one_assistant_turn "  Good morning "
                    (initial_state ∅ 0))).
    reflexivity.
  - apply (proj2 (one_user_turn_one_assistant_turn "   " (initial_state ∅ 0))).
    reflexivity.
Defined.

(** C4 — After every add and every delete, the text stored under the key
    "reminders" is the serialization of the list in memory, and reading it
    back gives exactly that list: both operations write through. *)
Theorem store_writes_through :
  forall st,
    (forall text,
       let st' := exec (Index.addReminder text) st in
       completion (Index.addReminder text) st = Normal tt
       /\ localStorage st' !! "reminders" = Some (JSON.stringify (reminders st'))
       /\ persisted st' = Some (reminders st'))
    /\ (forall id',
          let st' := exec (Index.deleteReminder id') st in
          completion (Index.deleteReminder id') st = Normal tt
          /\ localStorage st' !! "reminders" = Some (JSON.stringify (reminders st'))
          /\ persisted st' = Some (reminders st')).
Proof.
  intros st. split.
  - intros text st'. subst st'. unfold exec, completion.
    rewrite addReminder_eq. simpl. split; [done|]. split.
    + by rewrite lookup_insert_eq.
    + apply persisted_store_written.
  - intros id' st'. subst st'. unfold exec, completion.
    rewrite deleteReminder_eq. simpl. split; [done|]. split.
    + by rewrite lookup_insert_eq.
    + apply persisted_store_written.
Qed.

Section Filter_by_id.
Variable id' : Z.

Local Abbreviation keep :=
  (fun reminder : Reminder => negb (id reminder =? id')).

Lemma filter_keep_sublist rs : List.filter keep rs `sublist_of` rs.
Proof.
  induction rs as [|r rs IH]; simpl; [done|].
  destruct (id r =? id'); by constructor.
Qed.

Lemma filter_keep_elem_of rs r :
  r ∈ List.filter keep rs <-> r ∈ rs /\ id r <> id'.
Proof.
  by rewrite !list_elem_of_In, filter_In, negb_true_iff, Z.eqb_neq.
Qed.

Lemma filter_keep_length rs :
  (length rs =
   length (List.filter keep rs)
   + length (List.filter (fun r => (id r =? id')%Z) rs))%nat.
Proof.
  induction rs as [|r rs IH]; simpl; [done|].
  destruct (id r =? id'); simpl; lia.
Qed.

Lemma filter_keep_absent rs :
  id' ∉ List.map id rs -> List.filter keep rs = rs.
Proof.
  induction rs as [|r rs IH]; simpl; intros Hni; [done|].
  apply not_elem_of_cons in Hni as [Hne Hni].
  destruct (Z.eqb_spec (id r) id'); [congruence|]. simpl. by rewrite IH.
Qed.

Lemma filter_keep_unique l1 r l2 :
  NoDup (List.map id (l1 ++ r :: l2)) -> id r = id' ->
  List.filter keep (l1 ++ r :: l2) = l1 ++ l2.
Proof.
  intros Hnd Hid. rewrite map_app in Hnd. simpl in Hnd.
  apply NoDup_app in Hnd as (Hnd1 & Hdisj & Hnd2).
  apply NoDup_cons in Hnd2 as [Hr Hnd2].
  rewrite List.filter_app. simpl.
  rewrite Hid, Z.eqb_refl. simpl.
  rewrite !filter_keep_absent; [done|by rewrite <- Hid|].
  intros Hin'. apply (Hdisj _ Hin'). rewrite Hid. left.
Qed.

End Filter_by_id.

(** C5, as stated, fails: [delete(id)] removes every entry with that id, and
    two reminders added within the same millisecond share theirs.  After
    two adds at clock reading 1000, deleting 1000 removes both entries. *)
Lemma delete_at_most_one_counterexample :
  ~ (forall st id',
       (length (reminders st)
        <= S (length (reminders (exec (Index.deleteReminder id') st))))%nat).
Proof.
  intros H.
  specialize (H (exec (apply_ops [op_add 1000 "a"; op_add 1000 "b"])
                   (initial_state ∅ 0)) 1000).
  vm_compute in H. lia.
Qed.

(** C5, amended — [delete(id)] removes exactly the entries whose id is [id]
    and keeps the others as they are and in their order: the new list is a
    sublist of the old one, holds no entry with that id, and lacks no entry
    with another id.  When the ids in the list are pairwise distinct that is
    at most one entry: the list is unchanged if no entry has the id, and is
    the list without that one entry otherwise. *)
Theorem delete_removes_matching_entries :
  forall st id',
    let rs := reminders st in
    let rs' := reminders (exec (Index.deleteReminder id') st) in
    rs' `sublist_of` rs
    /\ (forall r, r ∈ rs' <-> r ∈ rs /\ id r <> id')
    /\ (length rs =
        length rs' + length (List.filter (fun r => (id r =? id')%Z) rs))%nat
    /\ (NoDup (List.map id rs) ->
        (id' ∉ List.map id rs -> rs' = rs)
        /\ (forall l1 r l2, rs = l1 ++ r :: l2 -> id r = id' -> rs' = l1 ++ l2)).
Proof.
  intros st id' rs rs'. subst rs rs'. unfold exec.
  rewrite deleteReminder_eq. simpl.
  split; [apply filter_keep_sublist|].
  split; [apply filter_keep_elem_of|].
  split; [apply filter_keep_length|].
  intros Hnd. split; [apply filter_keep_absent|].
  intros l1 r l2 E Hid. rewrite E in *. by apply filter_keep_unique.
Qed.

Lemma delete_removes_matching_entries_witness :
  let st := exec (apply_ops [op_add 1 "tea"; op_add 2 "pills"; op_add 3 "walk"])
              (initial_state ∅ 0) in
  reminders (exec (Index.deleteReminder 2) st)
  = [{| id := 1; text := "tea" |}; {| id := 3; text := "walk" |}].
Proof.
  intros st.
  pose proof (delete_removes_matching_entries st 2) as (_ & _ & _ & H).
  assert (Hnd : NoDup (List.map id (reminders st))).
  { apply (bool_decide_unpack _). vm_compute. exact I. }
  destruct (H Hnd) as [_ H2].
  apply (H2 [{| id := 1; text := "tea" |}] {| id := 2; text := "pills" |}
            [{| id := 3; text := "walk" |}]); reflexivity.
Defined.

(** C6 — From an empty list, [add("call Sam")] followed by a load in a
    fresh session over the same key-value store gives the one-entry list
    again: the text "call Sam" with the id assigned at creation. *)
Theorem add_then_reload :
  forall st now',
    reminders st = [] ->
    let st1 := exec (Index.addReminder "call Sam") st in
    let fresh := initial_state (localStorage st1) now' in
    reminders st1 = [{| id := Date_now st; text := "call Sam" |}]
    /\ completion Index.loadReminders fresh = Normal tt
    /\ reminders (exec Index.loadReminders fresh)
       = [{| id := Date_now st; text := "call Sam" |}].
Proof.
  intros st now' Hempty st1 fresh. subst st1 fresh.
  unfold exec, completion. rewrite addReminder_eq, Hempty. simpl.
  split; [done|].
  by rewrite (loadReminders_persisted _ now'
                [{| id := Date_now st; text := "call Sam" |}])
    by apply lookup_insert_eq.
Qed.

Lemma add_then_reload_witness :
  let st := initial_state ∅ 1730000000000 in
  let st1 := exec (Index.addReminder "call Sam") st in
  let fresh := initial_state (localStorage st1) 1730000090000 in
  reminders st1 = [{| id := 1730000000000; text := "call Sam" |}]
  /\ completion Index.loadReminders fresh = Normal tt
  /\ reminders (exec Index.loadReminders fresh)
     = [{| id := 1730000000000; text := "call Sam" |}].
Proof.
  apply (add_then_reload (initial_state ∅ 1730000000000) 1730000090000).
  reflexivity.
Defined.

(** C7, in [index.tsx] — the error handler of speech recognition there does
    not look at the error category: for every error code, "aborted"
    included, it appends and speaks the same single message. *)
Theorem index_onerror_ignores_category :
  forall event_error st,
    let st' := exec (Index.recognition_onerror event_error) st in
    transcript st' =
      transcript st ++ [(mira, "I'm sorry, I couldn't hear that. Please try again.")]
    /\ spoken (calls st') =
         spoken (calls st) ++ ["I'm sorry, I couldn't hear that. Please try again."].
Proof.
  intros event_error st st'. subst st'.
  unfold exec, Index.recognition_onerror, mbind, M_bind, call, appendMessage,
    update. cbv beta zeta.
  match goal with |- context [speak ?t ?s] =>
    destruct (speak_eq t s) as (st' & -> & Hc & Hh & _) end.
  unfold transcript. simpl. rewrite Hh, Hc. simpl.
  unfold spoken. rewrite !omap_app.
  match goal with |- context [speak_calls ?t ?s] =>
    fold (spoken (speak_calls t s)); rewrite (speak_calls_spoken t s) end.
  simpl. by rewrite app_nil_r.
Qed.

Lemma sibling_category event_error :
  (if String.eqb event_error "network" then Sibling.network_message
   else if String.eqb event_error "no-speech" then Sibling.no_speech_message
   else if String.eqb event_error "not-allowed"
           || String.eqb event_error "service-not-allowed"
        then Sibling.not_allowed_message
        else Sibling.default_message)
  = (if decide (event_error = "network") then Sibling.network_message
     else if decide (event_error = "no-speech") then Sibling.no_speech_message
     else if decide (event_error = "not-allowed"
                     \/ event_error = "service-not-allowed")
          then Sibling.not_allowed_message
          else Sibling.default_message).
Proof.
  destruct (String.eqb_spec event_error "network") as [->|H1];
    [done|rewrite decide_False by done].
  destruct (String.eqb_spec event_error "no-speech") as [->|H2];
    [done|rewrite (decide_False (P := event_error = "no-speech")) by done].
  destruct (String.eqb_spec event_error "not-allowed") as [->|H3];
    [by rewrite decide_True by (by left)|].
  destruct (String.eqb_spec event_error "service-not-allowed") as [->|H4];
    [by rewrite decide_True by (by right)|].
  rewrite decide_False; [done|]. by intros [?|?].
Qed.

(** The handler of the sibling revision does what C7 says: an abort shows
    and speaks nothing; every other error code appends and speaks the
    message of its category, and the four messages differ. *)
Lemma sibling_onerror_taxonomy :
  (forall st,
     let st' := exec (Sibling.recognition_onerror "aborted") st in
     chatHistory st' = chatHistory st /\ spoken (calls st') = spoken (calls st))
  /\ (forall event_error st,
        event_error <> "aborted" ->
        let st' := exec (Sibling.recognition_onerror event_error) st in
        let errorMessage :=
          if decide (event_error = "network") then Sibling.network_message
          else if decide (event_error = "no-speech") then Sibling.no_speech_message
          else if decide (event_error = "not-allowed"
                          \/ event_error = "service-not-allowed")
               then Sibling.not_allowed_message
               else Sibling.default_message in
        transcript st' = transcript st ++ [(mira, errorMessage)]
        /\ spoken (calls st') = spoken (calls st) ++ [errorMessage])
  /\ NoDup [Sibling.network_message; Sibling.no_speech_message;
            Sibling.not_allowed_message; Sibling.default_message].
Proof.
  split; [|split].
  - intros st. simpl. unfold spoken. simpl. rewrite omap_app. simpl.
    by rewrite app_nil_r.
  - intros event_error st Hne st' errorMessage. subst st'.
    unfold exec, Sibling.recognition_onerror, mbind, M_bind, call,
      appendMessage, update.
    apply String.eqb_neq in Hne. rewrite Hne. cbv beta zeta.
    rewrite sibling_category. fold errorMessage.
    match goal with |- context [speak ?t ?s] =>
      destruct (speak_eq t s) as (st' & -> & Hc & Hh & _) end.
    unfold transcript. simpl. rewrite Hh, Hc. simpl.
    unfold spoken. rewrite !omap_app.
    match goal with |- context [speak_calls ?t ?s] =>
      fold (spoken (speak_calls t s)); rewrite (speak_calls_spoken t s) end.
    simpl. by rewrite app_nil_r.
  - apply (bool_decide_unpack _). by vm_compute.
Qed.

(** C8 — A click on the microphone button while not listening cancels
    speech output and then starts recognition, in that order, whether or not
    something is being spoken; a click while listening only stops
    recognition: no second session is started and no speech is cancelled. *)
Theorem mic_click_toggles :
  forall st,
    (isListening st = false ->
     micButton_click st
     = (Normal tt, log_call recognition_start (log_call synth_cancel st))
     /\ calls (exec micButton_click st)
        = calls st ++ [synth_cancel; recognition_start])
    /\ (isListening st = true ->
        micButton_click st = (Normal tt, log_call recognition_stop st)
        /\ calls (exec micButton_click st) = calls st ++ [recognition_stop]).
Proof.
  intros st. destruct st as [h v slow hid l lis sp load rs ls now cs].
  unfold exec, micButton_click, mbind, M_bind, read, call, update. simpl.
  split; intros ->; simpl; (split; [done|]); by rewrite <- ?app_assoc.
Qed.

Lemma mic_click_toggles_witness :
  let speaking := set_isSpeaking true (initial_state ∅ 0) in
  let listening := set_isListening true speaking in
  calls (exec micButton_click speaking) = [synth_cancel; recognition_start]
  /\ calls (exec micButton_click listening) = [recognition_stop].
Proof.
  intros speaking listening. split.
  - apply (proj1 (mic_click_toggles speaking)). reflexivity.
  - apply (proj2 (mic_click_toggles listening)). reflexivity.
Defined.

(** ** Runs of store operations *)

Lemma apply_op_eq op st :
  apply_op op st =
  (Normal tt,
   match op with
   | op_add now text =>
       store_written (reminders st ++ [{| id := now; text := text |}])
         (set_Date_now now st)
   | op_delete id' =>
       store_written
         (List.filter (fun reminder => negb (id reminder =? id')) (reminders st)) st
   end).
Proof.
  destruct op as [now text|id']; unfold apply_op.
  - unfold mbind, M_bind, update. by rewrite addReminder_eq.
  - apply deleteReminder_eq.
Qed.

Lemma apply_ops_cons op ops st :
  exec (apply_ops (op :: ops)) st = exec (apply_ops ops) (exec (apply_op op) st).
Proof.
  unfold exec, apply_ops. simpl forEach. unfold mbind, M_bind.
  by rewrite apply_op_eq.
Qed.

Lemma sublist_map {A B} (f : A -> B) (l k : list A) :
  l `sublist_of` k -> List.map f l `sublist_of` List.map f k.
Proof. induction 1; simpl; by constructor. Qed.

(** The ids in the store after a run are, in order, among the ids it
    started with followed by the clock readings of the adds. *)
Lemma ids_after_ops ops : forall st,
  List.map id (reminders (exec (apply_ops ops) st))
  `sublist_of` List.map id (reminders st) ++ add_times ops.
Proof.
  induction ops as [|op ops IH]; intros st.
  - simpl. by rewrite app_nil_r.
  - rewrite apply_ops_cons. etrans; [apply IH|].
    unfold exec. rewrite apply_op_eq. destruct op as [now text|id']; simpl.
    + rewrite map_app. simpl. by rewrite <- app_assoc.
    + apply sublist_app; [apply sublist_map, filter_keep_sublist|done].
Qed.

(** C9, as stated, fails: the id is the clock reading at the add, and two
    adds at the same reading (within one millisecond) give two different
    reminders the same id. *)
Lemma ids_unique_counterexample :
  let st := exec (apply_ops [op_add 1000 "call Sam"; op_add 1000 "water the plants"])
              (initial_state ∅ 0) in
  exists r1 r2,
    r1 ∈ reminders st /\ r2 ∈ reminders st /\ r1 <> r2 /\ id r1 = id r2.
Proof.
  exists {| id := 1000; text := "call Sam" |},
         {| id := 1000; text := "water the plants" |}.
  vm_compute reminders. repeat split; [set_solver|set_solver|done].
Qed.

(** C9, amended — Each add gives the new reminder the current clock reading
    as its id, so two adds at the same reading give the same id.  Over any
    run of adds and deletes the ids in the store are pairwise distinct
    provided the ids the store starts with are pairwise distinct, the adds
    happen at pairwise distinct clock readings, and none of these readings
    is an id the store starts with; in particular from an empty store,
    provided the adds happen at pairwise distinct clock readings. *)
Theorem ids_distinct_for_distinct_timestamps :
  (forall st text,
     reminders (exec (Index.addReminder text) st)
     = reminders st ++ [{| id := Date_now st; text := text |}])
  /\ (forall st text1 text2,
        reminders (exec (Index.addReminder text2)
                     (exec (Index.addReminder text1) st))
        = reminders st ++ [{| id := Date_now st; text := text1 |};
                           {| id := Date_now st; text := text2 |}])
  /\ (forall ops st,
        NoDup (List.map id (reminders st)) ->
        NoDup (add_times ops) ->
        (forall now, now ∈ add_times ops -> now ∉ List.map id (reminders st)) ->
        NoDup (List.map id (reminders (exec (apply_ops ops) st))))
  /\ (forall ops store now,
        NoDup (add_times ops) ->
        NoDup (List.map id
                 (reminders (exec (apply_ops ops) (initial_state store now))))).
Proof.
  split; [|split; [|split]].
  - intros st text. unfold exec. by rewrite addReminder_eq.
  - intros st text1 text2. unfold exec. rewrite addReminder_eq.
    cbv beta iota delta [snd]. rewrite addReminder_eq.
    cbv beta iota delta [snd]. simpl. by rewrite <- app_assoc.
  - intros ops st Hids Hadds Hfresh.
    eapply sublist_NoDup; [|apply ids_after_ops].
    apply NoDup_app. split; [done|]. split; [|done].
    intros x Hx Hx'. by apply (Hfresh x).
  - intros ops store now Hadds.
    eapply sublist_NoDup; [|apply ids_after_ops]. done.
Qed.

Lemma ids_distinct_for_distinct_timestamps_witness :
  let st := exec (apply_ops [op_add 1 "tea"]) (initial_state ∅ 0) in
  NoDup (List.map id
           (reminders
              (exec (apply_ops [op_add 1000 "call Sam"; op_delete 7;
                                op_add 1001 "water the plants"]) st)))
  /\ NoDup (List.map id
              (reminders
                 (exec (apply_ops [op_add 5 "walk"; op_add 6 "pills"])
                    (initial_state ∅ 0)))).
Proof.
  intros st. split.
  - apply (proj1 (proj2 (proj2 ids_distinct_for_distinct_timestamps))).
    + apply (bool_decide_unpack _). vm_compute. exact I.
    + apply (bool_decide_unpack _). vm_compute. exact I.
    + intros now Hin Hin'. vm_compute in Hin, Hin'.
      apply list_elem_of_In in Hin, Hin'. simpl in Hin, Hin'.
      destruct Hin' as [<-|[]]. destruct Hin as [H|[H|[]]]; discriminate H.
  - apply (proj2 (proj2 (proj2 ids_distinct_for_distinct_timestamps))).
    apply (bool_decide_unpack _). vm_compute. exact I.
Defined.

(** C10, as stated, fails for white space in front of the phrase: the
    router tests the prefix of the message as submitted, so " remind me to"
    creates no reminder and goes to the remote session. *)
Lemma trigger_only_counterexample :
  ~ (forall front phrase back st,
       all_white_space front = true -> all_white_space back = true ->
       JS.toLowerCase phrase = "remind me to" ->
       exists st',
         Index.sendMessageToMira (front +:+ phrase +:+ back) st
         = (Normal None, st')
         /\ reminders st' =
              reminders st ++ [{| id := Date_now st; text := EmptyString |}]).
Proof.
  intros H.
  destruct (H " " "remind me to" EmptyString (initial_state ∅ 0)
              eq_refl eq_refl eq_refl) as (st' & Hrun & _).
  vm_compute in Hrun. discriminate Hrun.
Qed.

(** C10, amended — A message that is exactly the trigger phrase, in any
    letter case, possibly followed by white space, passes the non-empty
    check and creates a reminder whose text is the empty string; the
    confirmation, [I've added a reminder for you: ] followed by two
    quotation marks with nothing between them, is appended and spoken, and
    nothing is forwarded. *)
Theorem trigger_only_creates_empty_reminder :
  forall phrase back st,
    JS.toLowerCase phrase = "remind me to" ->
    all_white_space back = true ->
    JS.truthy (JS.trim (phrase +:+ back)) = true
    /\ exists st',
         Index.sendMessageToMira (phrase +:+ back) st = (Normal None, st')
         /\ reminders st' =
              reminders st ++ [{| id := Date_now st; text := EmptyString |}]
         /\ transcript st' =
              transcript st ++
              [(user, phrase +:+ back);
               (mira, "I've added a reminder for you: " +:+ JSON.dq +:+ JSON.dq)]
         /\ spoken (calls st') =
              spoken (calls st) ++
              ["I've added a reminder for you: " +:+ JSON.dq +:+ JSON.dq]
         /\ forwarded (calls st') = forwarded (calls st).
Proof.
  intros phrase back st Hp Hb.
  assert (Ht : JS.startsWith (JS.toLowerCase (phrase +:+ back)) Index.trigger = true).
  { rewrite toLowerCase_app, Hp. apply startsWith_app. }
  split; [by apply trigger_truthy|].
  destruct (sendMessageToMira_trigger _ st Ht) as (st' & Hrun & Hr & Htr & Hs & Hf & _).
  assert (Hlen : String.length Index.trigger = String.length phrase).
  { by rewrite <- (toLowerCase_length phrase), Hp. }
  rewrite Hlen, substring_app, (trim_white_space _ Hb) in Hr, Htr, Hs.
  exists st'. by repeat split.
Qed.

Lemma trigger_only_creates_empty_reminder_witness :
  JS.truthy (JS.trim ("ReMiND Me tO" +:+ "  ")) = true
  /\ exists st',
       Index.sendMessageToMira ("ReMiND Me tO" +:+ "  ") (initial_state ∅ 42)
       = (Normal None, st')
       /\ reminders st' =
            reminders (initial_state ∅ 42) ++
            [{| id := Date_now (initial_state ∅ 42); text := EmptyString |}]
       /\ transcript st' =
            transcript (initial_state ∅ 42) ++
            [(user, "ReMiND Me tO" +:+ "  ");
             (mira, "I've added a reminder for you: " +:+ JSON.dq +:+ JSON.dq)]
       /\ spoken (calls st') =
            spoken (calls (initial_state ∅ 42)) ++
            ["I've added a reminder for you: " +:+ JSON.dq +:+ JSON.dq]
       /\ forwarded (calls st') = forwarded (calls (initial_state ∅ 42)).
Proof.
  apply (trigger_only_creates_empty_reminder "ReMiND Me tO" "  "
           (initial_state ∅ 42)); reflexivity.
Defined.

(** * Further properties of the code *)

(** ** What each function leaves behind *)

#[local] Arguments String.append : simpl never.

Lemma speak_run text st : speak text st = (Normal tt, after_speak text st).
Proof.
  unfold speak, after_speak, rate_of, mbind, M_bind, read, call, update.
  by destruct st as [h v slow hid l lis [] load rs ls now cs].
Qed.

Lemma showLoadingIndicator_run st :
  showLoadingIndicator st = (Normal tt, after_show st).
Proof.
  unfold showLoadingIndicator, after_show, mbind, M_bind, read, update.
  by destruct st as [h v slow hid l lis sp [] rs ls now cs].
Qed.

Lemma hideLoadingIndicator_run st :
  hideLoadingIndicator st = (Normal tt, after_hide st).
Proof.
  unfold hideLoadingIndicator, after_hide, mbind, M_bind, read, update.
  by destruct st as [h v slow hid l lis sp [] rs ls now cs].
Qed.

Lemma sendMessageToMira_settled_run settlement st :
  sendMessageToMira_settled settlement st = (Normal tt, after_settled settlement st).
Proof.
  unfold sendMessageToMira_settled, try_catch, after_settled.
  destruct settlement as [response_text|reason];
    unfold await, throw, mbind, M_bind, mret, M_ret, call, appendMessage, update;
    cbv beta zeta; rewrite hideLoadingIndicator_run; cbv beta iota;
    by rewrite speak_run.
Qed.

(** The three ways of [sendMessageToMira] in [index.tsx]. *)
Lemma sendMessageToMira_run message st :
  Index.sendMessageToMira message st =
  if negb (JS.truthy (JS.trim message)) then (Normal None, st)
  else
    let st1 := set_chatInput_value EmptyString (appended message user st) in
    if JS.startsWith (JS.toLowerCase message) Index.trigger then
      let reminderText :=
        JS.trim (JS.substring message (String.length Index.trigger)) in
      (Normal None,
       after_speak (Index.confirmation_of reminderText)
         (appended (Index.confirmation_of reminderText) mira
            (store_written
               (reminders st ++ [{| id := Date_now st; text := reminderText |}])
               st1)))
    else
      (Normal (Some sendMessageToMira_settled),
       log_call (chat_sendMessage message) (after_show st1)).
Proof.
  unfold Index.sendMessageToMira.
  destruct (negb (JS.truthy (JS.trim message))); [done|].
  destruct (JS.startsWith (JS.toLowerCase message) Index.trigger).
  - unfold mbind, M_bind, appendMessage at 1, update at 1 2. cbv beta iota zeta.
    rewrite addReminder_eq. unfold appendMessage, update. cbv beta iota.
    by rewrite speak_run.
  - unfold mbind, M_bind, appendMessage at 1, update at 1 2. cbv beta iota zeta.
    by rewrite showLoadingIndicator_run.
Qed.

Lemma sibling_sendMessageToMira_run message st :
  Sibling.sendMessageToMira message st =
  if negb (JS.truthy (JS.trim message)) then (Normal None, st)
  else
    (Normal (Some sendMessageToMira_settled),
     log_call (chat_sendMessage message)
       (after_show (set_chatInput_value EmptyString (appended message user st)))).
Proof.
  unfold Sibling.sendMessageToMira.
  destruct (negb (JS.truthy (JS.trim message))); [done|].
  unfold mbind, M_bind, appendMessage at 1, update at 1 2. cbv beta iota zeta.
  by rewrite showLoadingIndicator_run.
Qed.

Lemma loadReminders_run st :
  Index.loadReminders st =
  match localStorage st !! "reminders" with
  | Some stored =>
      if JS.truthy stored then
        match JSON.parse stored with
        | Some rs =>
            (Normal tt, set_remindersList (rendered rs) (set_reminders rs st))
        | None => (Throw SyntaxError, st)
        end
      else (Normal tt, st)
  | None => (Normal tt, st)
  end.
Proof.
  unfold Index.loadReminders. unfold mbind at 1, M_bind, read. cbv beta iota.
  destruct (localStorage st !! "reminders") as [stored|]; [|done].
  destruct (JS.truthy stored); [|done].
  destruct (JSON.parse stored) as [rs|]; [|done].
  unfold mbind, M_bind, update. cbv beta iota.
  by rewrite renderReminders_eq.
Qed.

Lemma micButton_click_run st :
  micButton_click st =
  (Normal tt,
   if isListening st then log_call recognition_stop st
   else log_call recognition_start (log_call synth_cancel st)).
Proof.
  unfold micButton_click, mbind, M_bind, read, call, update.
  by destruct st as [h v slow hid l [] sp load rs ls now cs].
Qed.

(** ** Every event is a sequence of primitive changes *)

Lemma change_say_after text st0 st :
  change st0 st -> change st0 (after_speak text (appended text mira st)).
Proof. intros H. eapply change_then; [exact H|apply change_say]. Qed.

Lemma sendMessageToMira_change message st :
  exists st',
    (Index.sendMessageToMira message st = (Normal None, st')
     \/ Index.sendMessageToMira message st
        = (Normal (Some sendMessageToMira_settled), st'))
    /\ change st st'.
Proof.
  rewrite sendMessageToMira_run.
  destruct (JS.truthy (JS.trim message)) eqn:Hn; simpl negb; cbv iota.
  2: { exists st. split; [by left|apply change_none]. }
  cbv zeta.
  destruct (JS.startsWith (JS.toLowerCase message) Index.trigger) eqn:Ht;
    eexists; (split; [by (left + right)|]).
  - apply change_say_after.
    eapply change_then; [|apply change_store].
    eapply change_then; [apply change_user_turn|apply change_input].
  - by apply change_forward.
Qed.

Lemma after_settled_change settlement st : change st (after_settled settlement st).
Proof.
  destruct settlement as [response_text|reason]; unfold after_settled.
  - apply change_say_after, change_hide.
  - apply change_say_after.
    match goal with |- change _ (after_hide ?s) =>
      apply (change_then _ s); [by apply change_call|apply change_hide] end.
Qed.

Lemma run_async_change m p :
  (exists st',
     (m (page_state p) = (Normal None, st')
      \/ m (page_state p) = (Normal (Some sendMessageToMira_settled), st'))
     /\ change (page_state p) st') ->
  pending_known p ->
  change (page_state p) (page_state (run_async m p))
  /\ pending_known (run_async m p).
Proof.
  intros (st' & [H|H] & Hc) Hp; unfold run_async; rewrite H; simpl.
  - done.
  - split; [done|]. apply Forall_app. split; [done|]. by constructor.
Qed.

Lemma handle_change e p :
  pending_known p ->
  change (page_state p) (page_state (handle e p)) /\ pending_known (handle e p).
Proof.
  intros Hp.
  destruct e as [value|checked|now| | | | | |n settlement| | | |spoken_text
                |event_error| | |delete_button]; simpl handle.
  - split; [apply change_input|done].
  - split; [apply change_slow_mode|done].
  - split; [apply change_clock|done].
  - split; [apply change_speaking|done].
  - split; [apply change_speaking|done].
  - unfold Index.window_load. rewrite loadReminders_run.
    destruct (localStorage (page_state p) !! "reminders") as [stored|] eqn:E;
      [|split; [apply change_none|done]].
    destruct (JS.truthy stored); [|split; [apply change_none|done]].
    destruct (JSON.parse stored) as [rs|] eqn:Ep;
      [|split; [apply change_none|done]].
    split; [by eapply change_load|done].
  - destruct (page_timer p); [|split; [apply change_none|done]].
    split; [|done]. simpl. unfold exec, Index.welcome_timeout, mbind, M_bind,
      appendMessage, update. cbv beta iota. rewrite speak_run.
    apply change_say.
  - apply run_async_change; [|done].
    unfold Index.chatForm_submit, mbind, M_bind, read. cbv beta iota.
    apply sendMessageToMira_change.
  - destruct (pending_rest p n) as [rest|] eqn:E;
      [|split; [apply change_none|done]].
    assert (rest = sendMessageToMira_settled) as ->.
    { by apply (proj1 (Forall_lookup _ _) Hp n). }
    simpl. unfold exec. rewrite sendMessageToMira_settled_run.
    split; [apply after_settled_change|].
    unfold pending_known. simpl. by apply Forall_delete.
  - split; [|done]. simpl. unfold exec. rewrite micButton_click_run. simpl.
    destruct (isListening (page_state p)).
    + by apply change_call.
    + apply (change_then _ (log_call synth_cancel (page_state p)));
        by apply change_call.
  - split; [apply change_listening|done].
  - split; [apply change_listening|done].
  - apply run_async_change; [|done].
    unfold Index.recognition_onresult, mbind, M_bind, update. cbv beta iota.
    destruct (sendMessageToMira_change spoken_text
                (assign_chatInput_value spoken_text (page_state p)))
      as (st' & H & Hc).
    exists st'. split; [done|].
    eapply change_then; [apply change_input|done].
  - split; [|done]. simpl.
    unfold exec, Index.recognition_onerror, mbind, M_bind, call, appendMessage,
      update. cbv beta iota zeta. rewrite speak_run.
    apply change_say_after. by apply change_call.
  - split; [apply change_panel|done].
  - split; [apply change_panel|done].
  - split; [|done]. destruct delete_button as [id'|]; simpl.
    + unfold exec. rewrite deleteReminder_eq. apply change_store.
    + apply change_none.
Qed.

Lemma reachable_change p0 p :
  reachable_from p0 p -> pending_known p0 ->
  change (page_state p0) (page_state p) /\ pending_known p.
Proof.
  induction 1 as [|p e Hr IH]; intros Hp0.
  - split; [apply change_none|done].
  - destruct (IH Hp0) as [Hc Hp].
    destruct (handle_change e p Hp) as [Hc' Hp'].
    split; [by eapply change_then|done].
Qed.

Lemma run_reachable events : forall p, reachable_from p (run events p).
Proof.
  induction events as [|e events IH] using rev_ind; intros p.
  - apply reachable_start.
  - unfold run. rewrite foldl_app. simpl. apply reachable_step, IH.
Qed.

(** ** What the primitive changes keep *)

Ltac open_state st :=
  destruct st as [? ? ? ? ? ? sp load ? ? ? ?];
  unfold appended, after_speak, after_show, after_hide, store_written, rate_of;
  simpl in *.

Lemma prefix_app_self {A} (l k : list A) : l `prefix_of` l ++ k.
Proof. by exists k. Qed.

Lemma change_transcript st st' :
  change st st' -> transcript st `prefix_of` transcript st'.
Proof.
  induction 1 as [st|st1 st2 st3 _ IH1 _ IH2|value st|checked st|now st|b st
                 |b st|b st|text st|text st|st|st|c st Hc Hc'|rs st|stored rs st _ _
                 |message st Hn Ht];
    [done|by etrans|..]; unfold transcript.
  - by open_state st.
  - by open_state st.
  - by open_state st.
  - by open_state st.
  - by open_state st.
  - by open_state st.
  - open_state st. rewrite omap_app. apply prefix_app_self.
  - open_state st. destruct sp; simpl; rewrite omap_app; apply prefix_app_self.
  - open_state st. destruct load; simpl; [done|].
    rewrite omap_app. apply prefix_app_self.
  - open_state st. destruct load; simpl; [|done].
    by rewrite omap_turn_of_detach.
  - by open_state st.
  - by open_state st.
  - by open_state st.
  - clear Hn Ht. open_state st. destruct load; simpl; rewrite !omap_app; simpl;
      rewrite ?app_nil_r; apply prefix_app_self.
Qed.

Lemma spoken_app cs cs' : spoken (cs ++ cs') = spoken cs ++ spoken cs'.
Proof. apply omap_app. Qed.

Lemma mira_texts_app l k : mira_texts (l ++ k) = mira_texts l ++ mira_texts k.
Proof. apply omap_app. Qed.

Lemma change_lockstep st st' :
  change st st' ->
  mira_texts (transcript st) = spoken (calls st) ->
  mira_texts (transcript st') = spoken (calls st').
Proof.
  induction 1 as [st|st1 st2 st3 _ IH1 _ IH2|value st|checked st|now st|b st
                 |b st|b st|text st|text st|st|st|c st Hc Hc'|rs st|stored rs st _ _
                 |message st Hn Ht];
    [done|by auto|..]; unfold transcript; intros H.
  - by open_state st.
  - by open_state st.
  - by open_state st.
  - by open_state st.
  - by open_state st.
  - by open_state st.
  - open_state st. rewrite omap_app, mira_texts_app, H. simpl.
    by rewrite app_nil_r.
  - open_state st.
    destruct sp; simpl; rewrite omap_app, mira_texts_app, !spoken_app, H; simpl;
      by rewrite ?app_nil_r.
  - open_state st. destruct load; simpl; [done|].
    rewrite omap_app, mira_texts_app, H. simpl. by rewrite app_nil_r.
  - open_state st. destruct load; simpl; [|done].
    by rewrite omap_turn_of_detach.
  - open_state st. rewrite spoken_app, H.
    destruct c; simpl; rewrite ?app_nil_r; try done. by destruct (Hc utterance_text rate).
  - by open_state st.
  - by open_state st.
  - clear Hn Ht. open_state st.
    destruct load; simpl;
      rewrite spoken_app, !omap_app, !mira_texts_app, H; simpl;
      by rewrite ?app_nil_r.
Qed.

Lemma change_indicator st st' :
  change st st' -> indicator_consistent st -> indicator_consistent st'.
Proof.
  induction 1 as [st|st1 st2 st3 _ IH1 _ IH2|value st|checked st|now st|b st
                 |b st|b st|text st|text st|st|st|c st Hc Hc'|rs st|stored rs st _ _
                 |message st Hn Ht];
    [done|by auto|..]; unfold indicator_consistent, indicators; intros H.
  - by open_state st.
  - by open_state st.
  - by open_state st.
  - by open_state st.
  - by open_state st.
  - by open_state st.
  - open_state st. rewrite List.filter_app, length_app, H. simpl. lia.
  - open_state st.
    destruct sp; simpl; rewrite List.filter_app, length_app, H; simpl; lia.
  - open_state st. destruct load; simpl; [done|].
    rewrite List.filter_app, length_app, H. done.
  - open_state st. destruct load; simpl; [|done].
    by rewrite filter_detach_none.
  - by open_state st.
  - by open_state st.
  - by open_state st.
  - clear Hn Ht. open_state st.
    destruct load; simpl; rewrite !List.filter_app, !length_app, H; simpl; lia.
Qed.

Lemma change_in_sync st st' : change st st' -> in_sync st -> in_sync st'.
Proof.
  induction 1 as [st|st1 st2 st3 _ IH1 _ IH2|value st|checked st|now st|b st
                 |b st|b st|text st|text st|st|st|c st Hc Hc'|rs st|stored rs st Hs Hp
                 |message st Hn Ht];
    [done|by auto|..]; unfold in_sync; intros H.
  - by open_state st.
  - by open_state st.
  - by open_state st.
  - by open_state st.
  - by open_state st.
  - by open_state st.
  - by open_state st.
  - open_state st. by destruct sp.
  - open_state st. by destruct load.
  - open_state st. by destruct load.
  - by open_state st.
  - open_state st. left. apply lookup_insert_eq.
  - open_state st. destruct H as [H|[H _]]; [|congruence].
    rewrite H in Hs. inversion Hs; subst stored.
    rewrite parse_stringify in Hp. inversion Hp; subst. by left.
  - clear Hn Ht. open_state st. by destruct load.
Qed.

Lemma change_list st st' :
  change st st' -> list_shows_reminders st -> list_shows_reminders st'.
Proof.
  induction 1 as [st|st1 st2 st3 _ IH1 _ IH2|value st|checked st|now st|b st
                 |b st|b st|text st|text st|st|st|c st Hc Hc'|rs st|stored rs st Hs Hp
                 |message st Hn Ht];
    [done|by auto|..]; unfold list_shows_reminders; intros H.
  - by open_state st.
  - by open_state st.
  - by open_state st.
  - by open_state st.
  - by open_state st.
  - by open_state st.
  - by open_state st.
  - open_state st. by destruct sp.
  - open_state st. by destruct load.
  - open_state st. by destruct load.
  - by open_state st.
  - open_state st. by left.
  - open_state st. by left.
  - clear Hn Ht. open_state st. by destruct load.
Qed.

Lemma in_sync_reload st : in_sync st -> reload st = reminders st.
Proof.
  unfold reload, exec. rewrite loadReminders_run.
  change (localStorage (initial_state (localStorage st) (Date_now st)))
    with (localStorage st).
  intros [H|[H Hr]]; rewrite H.
  - by rewrite stringify_truthy, parse_stringify.
  - by rewrite Hr.
Qed.

(** ** The page over any sequence of events *)

#[local] Arguments after_speak : simpl never.
#[local] Arguments after_settled : simpl never.
#[local] Arguments after_show : simpl never.
#[local] Arguments after_hide : simpl never.
#[local] Arguments store_written : simpl never.
#[local] Arguments appended : simpl never.

Lemma initial_pending_known store now : pending_known (initial_page store now).
Proof. by constructor. Qed.

Lemma run_app events more p : run (events ++ more) p = run more (run events p).
Proof. unfold run. apply foldl_app. Qed.

Lemma run_change events p :
  pending_known p ->
  change (page_state p) (page_state (run events p))
  /\ pending_known (run events p).
Proof. apply reachable_change, run_reachable. Qed.

(** X1 — The transcript only grows at its end: whatever happens next, the turns
    on display stay the first turns on display, in their order and with
    their texts.  ([appendMessage] adds at the end; hiding the loading
    indicator removes no turn.) *)
Theorem transcript_append_only :
  forall store now events more,
    transcript (page_state (run events (initial_page store now)))
    `prefix_of`
    transcript (page_state (run (events ++ more) (initial_page store now))).
Proof.
  intros store now events more. rewrite run_app.
  destruct (run_change events (initial_page store now)
              (initial_pending_known store now)) as [_ Hp].
  by apply change_transcript, run_change.
Qed.

(** X2 — Everything MIRA displays is handed to the synthesizer and nothing else
    is: in every page the script can get to, the texts of MIRA's turns are,
    in order, the texts of the utterances spoken so far. *)
Theorem displayed_is_spoken :
  forall store now events,
    let st := page_state (run events (initial_page store now)) in
    mira_texts (transcript st) = spoken (calls st).
Proof.
  intros store now events st. subst st.
  destruct (run_change events (initial_page store now)
              (initial_pending_known store now)) as [Hc _].
  by apply (change_lockstep _ _ Hc).
Qed.

Ltac page_simpl :=
  cbv beta iota delta [page_state page_pending page_timer run_listener exec
                       fst snd].

Lemma loading_after_speak text st :
  loadingMessageElement (after_speak text st) = loadingMessageElement st.
Proof. open_state st. by destruct sp. Qed.

Lemma loading_after_settled settlement st :
  loadingMessageElement (after_settled settlement st) = false.
Proof.
  destruct settlement; unfold after_settled; rewrite loading_after_speak;
    open_state st; by destruct load.
Qed.

(** How an event moves the indicator flag and the pending rests: it leaves
    both, or adds a pending rest, or leaves the flag cleared. *)
Lemma handle_loading e p :
  pending_known p ->
  (loadingMessageElement (page_state (handle e p))
   = loadingMessageElement (page_state p)
   /\ page_pending (handle e p) = page_pending p)
  \/ (exists rest, page_pending (handle e p) = page_pending p ++ [rest])
  \/ loadingMessageElement (page_state (handle e p)) = false.
Proof.
  intros Hp.
  assert (Hsend : forall message st pend timer,
    let p' := run_async (Index.sendMessageToMira message) (mkPage st pend timer) in
    (loadingMessageElement (page_state p') = loadingMessageElement st
     /\ page_pending p' = pend)
    \/ (exists rest, page_pending p' = pend ++ [rest])).
  { intros message st pend timer. unfold run_async. page_simpl.
    rewrite sendMessageToMira_run.
    destruct (negb (JS.truthy (JS.trim message))); [by left|]. cbv zeta.
    destruct (JS.startsWith (JS.toLowerCase message) Index.trigger); page_simpl.
    - left. by rewrite loading_after_speak.
    - right. by eexists. }
  destruct p as [st pend timer]. unfold pending_known in Hp.
  change (page_pending (mkPage st pend timer)) with pend in Hp.
  destruct e as [value|checked|now| | | | | |n settlement| | | |spoken_text
                |event_error| | |delete_button]; unfold handle;
    try (by left).
  - left. unfold Index.window_load. page_simpl. rewrite loadReminders_run.
    destruct (localStorage st !! "reminders") as [stored|]; [|done].
    destruct (JS.truthy stored); [|done].
    by destruct (JSON.parse stored).
  - left. page_simpl. destruct timer; [|done]. page_simpl.
    unfold Index.welcome_timeout, mbind, M_bind, appendMessage, update.
    cbv beta iota. rewrite speak_run. page_simpl.
    by rewrite loading_after_speak.
  - destruct (Hsend (chatInput_value st) st pend timer) as [H|H];
      [left|right; left]; exact H.
  - destruct (pending_rest (mkPage st pend timer) n) as [rest|] eqn:E;
      [|by left].
    assert (rest = sendMessageToMira_settled) as ->.
    { by apply (proj1 (Forall_lookup _ _) Hp n). }
    right; right. page_simpl. rewrite sendMessageToMira_settled_run.
    apply loading_after_settled.
  - left. page_simpl. rewrite micButton_click_run. page_simpl.
    by destruct (isListening st).
  - destruct (Hsend spoken_text (assign_chatInput_value spoken_text st) pend timer)
      as [H|H]; [left|right; left]; exact H.
  - left. page_simpl.
    unfold Index.recognition_onerror, mbind, M_bind, call, appendMessage,
      update. cbv beta iota zeta. rewrite speak_run. page_simpl.
    by rewrite loading_after_speak.
  - left. destruct delete_button as [id'|]; page_simpl; [|done].
    unfold Index.remindersList_click. by rewrite deleteReminder_eq.
Qed.

Lemma reachable_loading p0 p :
  reachable_from p0 p -> pending_known p0 ->
  (loadingMessageElement (page_state p0) = false \/ page_pending p0 <> []) ->
  loadingMessageElement (page_state p) = false \/ page_pending p <> [].
Proof.
  induction 1 as [|p e Hr IH]; intros Hp0 H0; [done|].
  destruct (reachable_change _ _ Hr Hp0) as [_ Hp].
  destruct (handle_loading e p Hp) as [[Hl Hq]|[[rest Hq]|Hl]].
  - rewrite Hl, Hq. by apply IH.
  - right. rewrite Hq. by destruct (page_pending p).
  - by left.
Qed.

(** X3 — The loading indicator is attached at most once, and only while some
    remote call is pending: in every page the script can get to, there is
    no indicator in the chat history, or there is exactly one and at least
    one call has not settled. *)
Theorem indicator_only_while_pending :
  forall store now events,
    let p := run events (initial_page store now) in
    indicators (page_state p) = 0%nat
    \/ (indicators (page_state p) = 1%nat /\ page_pending p <> []).
Proof.
  intros store now events p. subst p.
  pose proof (initial_pending_known store now) as Hp0.
  destruct (run_change events _ Hp0) as [Hc _].
  pose proof (change_indicator _ _ Hc (indicator_consistent_initial store now)) as Hi.
  destruct (reachable_loading _ _ (run_reachable events _) Hp0 (or_introl eq_refl))
    as [Hl|Hq]; unfold indicator_consistent in Hi.
  - left. by rewrite Hl in Hi.
  - destruct (loadingMessageElement (page_state (run events (initial_page store now))));
      [by right|by left].
Qed.

(** X4 — Any settlement removes the indicator, also when other calls are still
    pending: the indicator does not wait for the last of them. *)
Theorem settlement_removes_indicator :
  forall store now events n settlement,
    let p := run events (initial_page store now) in
    is_Some (pending_rest p n) ->
    indicators (page_state (handle (chat_settles n settlement) p)) = 0%nat
    /\ length (page_pending (handle (chat_settles n settlement) p))
       = pred (length (page_pending p)).
Proof.
  intros store now events n settlement p [rest E]. subst p.
  pose proof (initial_pending_known store now) as Hp0.
  destruct (run_change events _ Hp0) as [Hc Hp].
  pose proof (change_indicator _ _ Hc (indicator_consistent_initial store now)) as Hi.
  clear Hc Hp0. revert E Hp Hi.
  generalize (run events (initial_page store now)).
  intros [st pend timer] E Hp Hi.
  assert (rest = sendMessageToMira_settled) as ->.
  { by apply (proj1 (Forall_lookup _ _) Hp n). }
  unfold handle. rewrite E. page_simpl.
  rewrite sendMessageToMira_settled_run. page_simpl. split.
  - pose proof (change_indicator _ _ (after_settled_change settlement st) Hi) as Hi'.
    unfold indicator_consistent in Hi'.
    by rewrite Hi', loading_after_settled.
  - cbv beta iota delta [page_pending].
    rewrite length_delete; [lia|by eexists].
Qed.

Lemma settlement_removes_indicator_witness :
  let p := run [user_types "Hello"; form_submitted;
                user_types "Are you there?"; form_submitted]
             (initial_page ∅ 0) in
  indicators (page_state (handle (chat_settles 0 (Fulfilled "Hi!")) p)) = 0%nat
  /\ length (page_pending (handle (chat_settles 0 (Fulfilled "Hi!")) p))
     = pred (length (page_pending p)).
Proof.
  apply (settlement_removes_indicator ∅ 0
           [user_types "Hello"; form_submitted;
            user_types "Are you there?"; form_submitted] 0 (Fulfilled "Hi!")).
  vm_compute. eexists. reflexivity.
Defined.

(** X5 — Closing the page loses nothing: when the key-value store held nothing
    under the key or a list this script wrote, then at every moment after
    the load listener has run, a session started over the store as it is
    would load exactly the list now in memory. *)
Theorem reload_gives_current_list :
  forall store now events,
    written_by_script store ->
    let st := page_state (run (window_loads :: events) (initial_page store now)) in
    reload st = reminders st.
Proof.
  intros store now events Hs st. subst st.
  change (window_loads :: events) with ([window_loads] ++ events).
  rewrite run_app. apply in_sync_reload.
  destruct (run_change [window_loads] (initial_page store now)
              (initial_pending_known store now)) as [_ Hp].
  destruct (run_change events _ Hp) as [Hc _].
  apply (change_in_sync _ _ Hc).
  unfold run, in_sync. simpl. unfold Index.window_load.
  rewrite loadReminders_run. simpl.
  destruct Hs as [Hs|[rs Hs]]; rewrite Hs.
  - right. by split.
  - rewrite stringify_truthy, parse_stringify. simpl. by left.
Qed.

Lemma reload_gives_current_list_witness :
  let st := page_state
              (run [window_loads; user_types "remind me to call Sam";
                    form_submitted; clock_reads 5;
                    recognition_results "Remind me to water the plants";
                    reminders_list_clicked (Some 0)]
                 (initial_page ∅ 0)) in
  reload st = reminders st.
Proof.
  apply (reload_gives_current_list ∅ 0
           [user_types "remind me to call Sam"; form_submitted; clock_reads 5;
            recognition_results "Remind me to water the plants";
            reminders_list_clicked (Some 0)]).
  left. reflexivity.
Defined.

(** X6 — The reminders panel lists what is in memory.  When the key-value
    store held nothing under the key or a list this script wrote, then in
    every page the script can get to the list element holds one [li] per
    reminder, in order, each with the markup the script's template gives
    for that reminder (the "no reminders" paragraph for an empty list), or
    it is still empty as the markup of the page left it and there is no
    reminder.  The latter is the case after a load that found nothing
    stored: the paragraph is not shown until the first add or delete. *)
Theorem list_element_shows_reminders :
  forall store now events,
    written_by_script store ->
    let st := page_state (run events (initial_page store now)) in
    remindersList st
    = match reminders st with
      | [] => [NoRemindersParagraph]
      | rs => List.map (fun reminder => Li (item_innerHTML reminder)) rs
      end
    \/ (remindersList st = [] /\ reminders st = []).
Proof.
  intros store now events _ st. subst st.
  destruct (run_change events (initial_page store now)
              (initial_pending_known store now)) as [Hc _].
  assert (H : list_shows_reminders
                (page_state (run events (initial_page store now)))).
  { apply (change_list _ _ Hc). by right. }
  destruct H as [H|H]; [left|by right].
  rewrite H. unfold rendered. by destruct (reminders _).
Qed.

Lemma list_element_shows_reminders_witness :
  let st := page_state
              (run [window_loads; user_types "remind me to email Bob <bob@example.com>";
                    form_submitted]
                 (initial_page ∅ 7)) in
  remindersList st
  = match reminders st with
    | [] => [NoRemindersParagraph]
    | rs => List.map (fun reminder => Li (item_innerHTML reminder)) rs
    end
  \/ (remindersList st = [] /\ reminders st = []).
Proof.
  apply (list_element_shows_reminders ∅ 7
           [window_loads; user_types "remind me to email Bob <bob@example.com>";
            form_submitted]).
  left. reflexivity.
Defined.

(** ** The reminder store, function by function *)

(** X7 — [renderReminders] replaces the list element whole, from the list in
    memory alone: the paragraph for an empty list, else one [li] per
    reminder, in order, whose [innerHTML] is assigned the script's template
    with the reminder's text and id put in as they are (not escaped); it
    changes nothing else and does not throw. *)
Theorem renderReminders_full_replace :
  forall st,
    Index.renderReminders st =
    (Normal tt,
     set_remindersList
       (match reminders st with
        | [] => [NoRemindersParagraph]
        | rs => List.map (fun reminder => Li (item_innerHTML reminder)) rs
        end) st).
Proof. intros st. rewrite renderReminders_eq. by destruct (reminders st). Qed.

(** X8 — [loadReminders] tolerates absence: with nothing under the key, or the
    empty text, it returns without touching memory, the list element or the
    store. *)
Theorem loadReminders_without_stored_list :
  forall st,
    localStorage st !! "reminders" = None
    \/ localStorage st !! "reminders" = Some EmptyString ->
    Index.loadReminders st = (Normal tt, st).
Proof.
  intros st [H|H]; rewrite loadReminders_run, H; done.
Qed.

Lemma loadReminders_without_stored_list_witness :
  Index.loadReminders (initial_state {["theme" := "dark"]} 0)
  = (Normal tt, initial_state {["theme" := "dark"]} 0)
  /\ Index.loadReminders (initial_state {["reminders" := EmptyString]} 0)
     = (Normal tt, initial_state {["reminders" := EmptyString]} 0).
Proof.
  split.
  - apply loadReminders_without_stored_list. left. reflexivity.
  - apply loadReminders_without_stored_list. right. reflexivity.
Defined.

Lemma reminders_store_written rs st : reminders (store_written rs st) = rs.
Proof. done. Qed.

(** X10 — Adding a reminder and then deleting the id it was given restores the
    list, provided no reminder already had that id; the store is written
    through with the restored list. *)
Theorem add_then_delete_restores :
  forall st text,
    Date_now st ∉ List.map id (reminders st) ->
    let st' := exec (Index.deleteReminder (Date_now st))
                 (exec (Index.addReminder text) st) in
    reminders st' = reminders st
    /\ persisted st' = Some (reminders st).
Proof.
  intros st text Hfresh st'. subst st'. unfold exec.
  rewrite addReminder_eq. cbv beta iota delta [snd].
  rewrite deleteReminder_eq. cbv beta iota delta [snd].
  rewrite persisted_store_written, !reminders_store_written.
  assert (E : List.filter (fun reminder => negb (id reminder =? Date_now st))
                (reminders st ++ [{| id := Date_now st; text := text |}])
              = reminders st).
  { rewrite List.filter_app, filter_keep_absent by done. simpl.
    by rewrite Z.eqb_refl, app_nil_r. }
  by rewrite E.
Qed.

Lemma add_then_delete_restores_witness :
  let st := set_Date_now 3
              (exec (apply_ops [op_add 1 "tea"; op_add 2 "pills"])
                 (initial_state ∅ 0)) in
  let st' := exec (Index.deleteReminder (Date_now st))
               (exec (Index.addReminder "walk") st) in
  reminders st' = reminders st /\ persisted st' = Some (reminders st).
Proof.
  apply (add_then_delete_restores
           (set_Date_now 3
              (exec (apply_ops [op_add 1 "tea"; op_add 2 "pills"])
                 (initial_state ∅ 0))) "walk").
  apply (bool_decide_unpack _). vm_compute. exact I.
Defined.

Lemma filter_keep_twice (a b : Z) (rs : list Reminder) :
  List.filter (fun reminder => negb (id reminder =? a))
    (List.filter (fun reminder => negb (id reminder =? b)) rs)
  = List.filter (fun reminder => negb (id reminder =? b))
      (List.filter (fun reminder => negb (id reminder =? a)) rs).
Proof.
  induction rs as [|r rs IH]; simpl; [done|].
  destruct (id r =? a) eqn:Ea, (id r =? b) eqn:Eb; simpl;
    rewrite ?Ea, ?Eb; simpl; by rewrite IH.
Qed.

Lemma filter_keep_again (a : Z) (rs : list Reminder) :
  List.filter (fun reminder => negb (id reminder =? a))
    (List.filter (fun reminder => negb (id reminder =? a)) rs)
  = List.filter (fun reminder => negb (id reminder =? a)) rs.
Proof.
  induction rs as [|r rs IH]; simpl; [done|].
  destruct (id r =? a) eqn:Ea; simpl; rewrite ?Ea; simpl; by rewrite IH.
Qed.

Lemma store_written_twice rs rs' st :
  store_written rs (store_written rs' st) = store_written rs st.
Proof.
  unfold store_written at 1.
  change (localStorage (store_written rs' st))
    with (<["reminders" := JSON.stringify rs']> (localStorage st)).
  rewrite insert_insert_eq. reflexivity.
Qed.

(** X11 — Deleting an id twice is deleting it once, and two deletes can be done
    in either order: the whole state — memory, store and list element — is
    the same. *)
Theorem delete_idempotent_and_commutative :
  forall st a b,
    exec (Index.deleteReminder a) (exec (Index.deleteReminder a) st)
    = exec (Index.deleteReminder a) st
    /\ exec (Index.deleteReminder b) (exec (Index.deleteReminder a) st)
       = exec (Index.deleteReminder a) (exec (Index.deleteReminder b) st).
Proof.
  intros st a b. unfold exec.
  repeat (rewrite deleteReminder_eq; cbv beta iota delta [snd]).
  rewrite !reminders_store_written, !store_written_twice.
  by rewrite filter_keep_again, (filter_keep_twice b a).
Qed.

(** ** Submitting *)

Lemma chatInput_after_speak text st :
  chatInput_value (after_speak text st) = chatInput_value st.
Proof. open_state st. by destruct sp. Qed.

Lemma chatInput_after_show st :
  chatInput_value (after_show st) = chatInput_value st.
Proof. open_state st. by destruct load. Qed.

Lemma chatInput_after_send message st :
  chatInput_value (Index.sendMessageToMira message st).2 =
  if JS.truthy (JS.trim message) then EmptyString else chatInput_value st.
Proof.
  rewrite sendMessageToMira_run.
  destruct (JS.truthy (JS.trim message)); [|done].
  change (negb true) with false. cbv beta iota zeta.
  destruct (JS.startsWith (JS.toLowerCase message) Index.trigger);
    cbv beta iota delta [snd].
  - by rewrite chatInput_after_speak.
  - change (chatInput_value (log_call ?c ?s)) with (chatInput_value s).
    by rewrite chatInput_after_show.
Qed.

(** X12 — The text field is emptied exactly when the message is taken:
    after a submit, or a recognition result, of a message that is not blank
    the field is empty.  A blank message stays in the field: as it was for a
    submit, and for a recognition result as the field took the transcript,
    that is without its line breaks. *)
Theorem input_cleared_when_message_taken :
  forall st spoken_text,
    chatInput_value (Index.chatForm_submit st).2
    = (if JS.truthy (JS.trim (chatInput_value st)) then EmptyString
       else chatInput_value st)
    /\ chatInput_value (Index.recognition_onresult spoken_text st).2
       = (if JS.truthy (JS.trim spoken_text) then EmptyString
          else strip_newlines spoken_text).
Proof.
  intros st spoken_text. split.
  - unfold Index.chatForm_submit, mbind, M_bind, read. cbv beta iota.
    apply chatInput_after_send.
  - unfold Index.recognition_onresult, mbind, M_bind, update. cbv beta iota.
    by rewrite chatInput_after_send.
Qed.

(** X13 — A recognition result without line breaks is handled exactly as
    the same text typed into the field and submitted.  (The result listener
    passes the transcript itself to [sendMessageToMira], the submit listener
    what the field holds; the field drops LF and CR, so the two differ for a
    transcript with a line break.) *)
Theorem recognition_result_as_typed :
  forall spoken_text st p,
    strip_newlines spoken_text = spoken_text ->
    Index.recognition_onresult spoken_text st
    = Index.chatForm_submit (assign_chatInput_value spoken_text st)
    /\ handle (recognition_results spoken_text) p
       = handle form_submitted (handle (user_types spoken_text) p).
Proof.
  intros spoken_text st [st0 pend timer] H.
  assert (E : forall s, Index.recognition_onresult spoken_text s
                        = Index.chatForm_submit (assign_chatInput_value spoken_text s)).
  { intros s. unfold Index.recognition_onresult, Index.chatForm_submit,
      mbind, M_bind, update, read. cbv beta iota.
    change (chatInput_value (assign_chatInput_value spoken_text s))
      with (strip_newlines spoken_text).
    by rewrite H. }
  split; [apply E|].
  unfold handle, run_async, run_listener, exec, update.
  cbv beta iota delta [page_state page_pending page_timer snd].
  by rewrite E.
Qed.

Lemma recognition_result_as_typed_witness :
  Index.recognition_onresult "remind me to call Sam" (initial_state ∅ 0)
  = Index.chatForm_submit
      (assign_chatInput_value "remind me to call Sam" (initial_state ∅ 0))
  /\ handle (recognition_results "remind me to call Sam") (initial_page ∅ 0)
     = handle form_submitted
         (handle (user_types "remind me to call Sam") (initial_page ∅ 0)).
Proof.
  apply (recognition_result_as_typed "remind me to call Sam"
           (initial_state ∅ 0) (initial_page ∅ 0)).
  reflexivity.
Defined.

Lemma startsWith_split_iff message p :
  JS.startsWith (JS.toLowerCase message) p = true
  <-> exists pre rest, message = pre +:+ rest /\ JS.toLowerCase pre = p.
Proof.
  split.
  - intros H. destruct (startsWith_toLowerCase_split _ _ H) as (pre & Hm & Hp).
    by exists pre, (JS.substring message (String.length p)).
  - intros (pre & rest & -> & <-). rewrite toLowerCase_app.
    apply startsWith_app.
Qed.

Lemma startsWith_short s p :
  (String.length s < String.length p)%nat -> JS.startsWith s p = false.
Proof.
  revert s. induction p as [|c p IH]; intros s H; [simpl in H; lia|].
  destruct s as [|a s]; simpl; [done|].
  rewrite IH by (simpl in H; lia). apply andb_false_r.
Qed.

(** X14 — The router of [index.tsx] on a message that is not blank: if its first
    twelve code units are a casing of the trigger phrase it is a reminder
    command and nothing is forwarded; in every other case, so whenever it
    is shorter than the phrase or the phrase comes later in it, it is
    forwarded to the remote session once and as submitted (not trimmed),
    and the reminders and the store are left alone. *)
Theorem router_dispatch :
  forall message st,
    JS.truthy (JS.trim message) = true ->
    let '(c, st') := Index.sendMessageToMira message st in
    ((exists pre rest,
        message = pre +:+ rest /\ JS.toLowerCase pre = "remind me to")
     /\ c = Normal None
     /\ forwarded (calls st') = forwarded (calls st))
    \/ (~ (exists pre rest,
             message = pre +:+ rest /\ JS.toLowerCase pre = "remind me to")
        /\ c = Normal (Some sendMessageToMira_settled)
        /\ forwarded (calls st') = forwarded (calls st) ++ [message]
        /\ reminders st' = reminders st
        /\ localStorage st' = localStorage st).
Proof.
  intros message st Hn.
  destruct (JS.startsWith (JS.toLowerCase message) Index.trigger) eqn:Ht.
  - destruct (sendMessageToMira_trigger message st Ht)
      as (st' & -> & _ & _ & _ & Hf & _).
    left. split; [by apply startsWith_split_iff|done].
  - destruct (sendMessageToMira_forward message st Hn Ht)
      as (st' & -> & _ & Hf & _ & Hr & Hl).
    right. split; [|done]. intros H.
    apply startsWith_split_iff in H. unfold Index.trigger in Ht. congruence.
Qed.

Lemma router_dispatch_witness :
  let '(c, st') := Index.sendMessageToMira " please remind me to rest "
                     (initial_state ∅ 0) in
  ((exists pre rest,
      " please remind me to rest " = pre +:+ rest
      /\ JS.toLowerCase pre = "remind me to")
   /\ c = Normal None
   /\ forwarded (calls st') = forwarded (calls (initial_state ∅ 0)))
  \/ (~ (exists pre rest,
           " please remind me to rest " = pre +:+ rest
           /\ JS.toLowerCase pre = "remind me to")
      /\ c = Normal (Some sendMessageToMira_settled)
      /\ forwarded (calls st')
         = forwarded (calls (initial_state ∅ 0)) ++ [" please remind me to rest "]
      /\ reminders st' = reminders (initial_state ∅ 0)
      /\ localStorage st' = localStorage (initial_state ∅ 0)).
Proof.
  apply (router_dispatch " please remind me to rest " (initial_state ∅ 0)).
  reflexivity.
Defined.

(** X15 — A message shorter than the trigger phrase is never a reminder command:
    if it is not blank it is forwarded. *)
Theorem short_message_is_forwarded :
  forall message st,
    JS.truthy (JS.trim message) = true ->
    (String.length message < 12)%nat ->
    (Index.sendMessageToMira message st).1 = Normal (Some sendMessageToMira_settled)
    /\ forwarded (calls (Index.sendMessageToMira message st).2)
       = forwarded (calls st) ++ [message].
Proof.
  intros message st Hn Hlen.
  assert (Ht : JS.startsWith (JS.toLowerCase message) Index.trigger = false).
  { apply startsWith_short. by rewrite toLowerCase_length. }
  destruct (sendMessageToMira_forward message st Hn Ht)
    as (st' & -> & _ & Hf & _).
  done.
Qed.

Lemma short_message_is_forwarded_witness :
  (Index.sendMessageToMira "Remind me" (initial_state ∅ 0)).1
  = Normal (Some sendMessageToMira_settled)
  /\ forwarded (calls (Index.sendMessageToMira "Remind me" (initial_state ∅ 0)).2)
     = forwarded (calls (initial_state ∅ 0)) ++ ["Remind me"].
Proof.
  apply (short_message_is_forwarded "Remind me" (initial_state ∅ 0)).
  - reflexivity.
  - vm_compute. lia.
Defined.

Lemma trimStart_idempotent s : JS.trimStart (JS.trimStart s) = JS.trimStart s.
Proof.
  induction s as [|c r IH]; simpl; [done|].
  destruct (JS.is_white_space c) eqn:E; [done|]. simpl. by rewrite E.
Qed.

Lemma trimEnd_idempotent s : JS.trimEnd (JS.trimEnd s) = JS.trimEnd s.
Proof.
  induction s as [|c r IH]; simpl; [done|].
  destruct (JS.trimEnd r) as [|a r'] eqn:E.
  - destruct (JS.is_white_space c) eqn:Ec; simpl; [done|]. by rewrite Ec.
  - change (JS.trimEnd (String c (String a r')))
      with (match JS.trimEnd (String a r') with
            | EmptyString => if JS.is_white_space c then EmptyString
                             else String c EmptyString
            | x => String c x
            end).
    by rewrite IH.
Qed.

Lemma trimEnd_trimStart y :
  JS.trimEnd y = y -> JS.trimEnd (JS.trimStart y) = JS.trimStart y.
Proof.
  induction y as [|c r IH]; [done|]. intros H.
  simpl JS.trimStart. destruct (JS.is_white_space c) eqn:Ec; [|done].
  apply IH. simpl in H. rewrite Ec in H.
  destruct (JS.trimEnd r) as [|a r']; [discriminate H|].
  by inversion H.
Qed.

Lemma trim_idempotent s : JS.trim (JS.trim s) = JS.trim s.
Proof.
  unfold JS.trim.
  rewrite (trimEnd_trimStart (JS.trimEnd s)) by apply trimEnd_idempotent.
  apply trimStart_idempotent.
Qed.

(** X16 — A reminder made from a message carries no white space at its ends:
    trimming its text again changes nothing. *)
Theorem reminder_text_is_trimmed :
  forall message st,
    JS.startsWith (JS.toLowerCase message) "remind me to" = true ->
    exists reminder,
      reminders (Index.sendMessageToMira message st).2
      = reminders st ++ [reminder]
      /\ JS.trim (text reminder) = text reminder.
Proof.
  intros message st Ht.
  destruct (sendMessageToMira_trigger message st Ht) as (st' & -> & Hr & _).
  eexists. split; [exact Hr|]. apply trim_idempotent.
Qed.

Lemma reminder_text_is_trimmed_witness :
  exists reminder,
    reminders (Index.sendMessageToMira "Remind me to   feed the cat  "
                 (initial_state ∅ 0)).2
    = reminders (initial_state ∅ 0) ++ [reminder]
    /\ JS.trim (text reminder) = text reminder.
Proof.
  apply (reminder_text_is_trimmed "Remind me to   feed the cat  "
           (initial_state ∅ 0)).
  reflexivity.
Defined.

(** ** The sibling revision *)

(** X18 — The speech error handler of the sibling revision: a user-initiated
    abort shows and speaks nothing; "network", "no-speech" and the two
    permission codes "not-allowed" and "service-not-allowed" each get the
    message of their category; every other code gets the fallback message;
    and the four messages are pairwise different. *)
Theorem sibling_onerror_by_category :
  answers_with "aborted" None
  /\ answers_with "network" (Some Sibling.network_message)
  /\ answers_with "no-speech" (Some Sibling.no_speech_message)
  /\ answers_with "not-allowed" (Some Sibling.not_allowed_message)
  /\ answers_with "service-not-allowed" (Some Sibling.not_allowed_message)
  /\ (forall event_error,
        event_error ∉ ["aborted"; "network"; "no-speech"; "not-allowed";
                       "service-not-allowed"] ->
        answers_with event_error (Some Sibling.default_message))
  /\ NoDup [Sibling.network_message; Sibling.no_speech_message;
            Sibling.not_allowed_message; Sibling.default_message].
Proof.
  destruct sibling_onerror_taxonomy as (Habort & Hother & Hnd).
  split.
  { intros st. destruct (Habort st) as [Hh Hs]. split; [|done].
    unfold transcript. by rewrite Hh. }
  split; [intros st; by apply (Hother "network")|].
  split; [intros st; by apply (Hother "no-speech")|].
  split; [intros st; by apply (Hother "not-allowed")|].
  split; [intros st; by apply (Hother "service-not-allowed")|].
  split; [|done].
  intros event_error Hni st.
  apply not_elem_of_cons in Hni as [Hne Hni].
  apply not_elem_of_cons in Hni as [Hnet Hni].
  apply not_elem_of_cons in Hni as [Hsp Hni].
  apply not_elem_of_cons in Hni as [Hna Hni].
  apply not_elem_of_cons in Hni as [Hsna _].
  pose proof (Hother event_error st Hne) as H. cbv zeta in H.
  rewrite (decide_False (P := event_error = "network")) in H by done.
  rewrite (decide_False (P := event_error = "no-speech")) in H by done.
  rewrite decide_False in H by (by intros [?|?]).
  exact H.
Qed.

Lemma sibling_onerror_by_category_witness :
  answers_with "audio-capture" (Some Sibling.default_message).
Proof.
  apply (proj1 (proj2 (proj2 (proj2 (proj2 (proj2 sibling_onerror_by_category)))))
           "audio-capture").
  apply (bool_decide_unpack _). vm_compute. exact I.
Defined.

(** X19 — The sibling revision has no reminder command: every message that is
    not blank, one starting with "remind me to" like any other, gets one
    user turn, is forwarded once and as submitted, and empties the text
    field; reminders and key-value store are never touched. *)
Theorem sibling_forwards_every_message :
  forall message st,
    JS.truthy (JS.trim message) = true ->
    let '(c, st') := Sibling.sendMessageToMira message st in
    c = Normal (Some sendMessageToMira_settled)
    /\ transcript st' = transcript st ++ [(user, message)]
    /\ forwarded (calls st') = forwarded (calls st) ++ [message]
    /\ chatInput_value st' = EmptyString
    /\ reminders st' = reminders st
    /\ localStorage st' = localStorage st.
Proof.
  intros message st Hn.
  destruct (sibling_sendMessageToMira_forward message st Hn)
    as (st' & Hrun & Htr & Hf & _).
  rewrite Hrun. split; [done|]. split; [done|]. split; [done|].
  rewrite sibling_sendMessageToMira_run, Hn in Hrun.
  change (negb true) with false in Hrun. cbv iota in Hrun.
  inversion Hrun as [Hst]. clear Hrun Hst.
  change (chatInput_value (log_call ?c ?s)) with (chatInput_value s).
  change (reminders (log_call ?c ?s)) with (reminders s).
  change (localStorage (log_call ?c ?s)) with (localStorage s).
  rewrite chatInput_after_show.
  split; [done|]. open_state st. by destruct load.
Qed.

Lemma sibling_forwards_every_message_witness :
  let '(c, st') := Sibling.sendMessageToMira "remind me to call Sam"
                     (initial_state ∅ 0) in
  c = Normal (Some sendMessageToMira_settled)
  /\ transcript st' =
       transcript (initial_state ∅ 0) ++ [(user, "remind me to call Sam")]
  /\ forwarded (calls st') =
       forwarded (calls (initial_state ∅ 0)) ++ ["remind me to call Sam"]
  /\ chatInput_value st' = EmptyString
  /\ reminders st' = reminders (initial_state ∅ 0)
  /\ localStorage st' = localStorage (initial_state ∅ 0).
Proof.
  apply (sibling_forwards_every_message "remind me to call Sam"
           (initial_state ∅ 0)).
  reflexivity.
Defined.

(** ** What reaches the remote session *)

Lemma user_texts_app l k : user_texts (l ++ k) = user_texts l ++ user_texts k.
Proof. apply omap_app. Qed.

Lemma forwarded_app cs cs' : forwarded (cs ++ cs') = forwarded cs ++ forwarded cs'.
Proof. apply omap_app. Qed.

Lemma change_forwarded st st' :
  change st st' ->
  forwarded (calls st) `sublist_of` user_texts (transcript st)
  /\ Forall (fun m => JS.truthy (JS.trim m) = true
                      /\ JS.startsWith (JS.toLowerCase m) Index.trigger = false)
       (forwarded (calls st)) ->
  forwarded (calls st') `sublist_of` user_texts (transcript st')
  /\ Forall (fun m => JS.truthy (JS.trim m) = true
                      /\ JS.startsWith (JS.toLowerCase m) Index.trigger = false)
       (forwarded (calls st')).
Proof.
  induction 1 as [st|st1 st2 st3 _ IH1 _ IH2|value st|checked st|now st|b st
                 |b st|b st|text st|text st|st|st|c st Hc Hc'|rs st|stored rs st _ _
                 |message st Hn Ht];
    [done|by auto|..]; unfold transcript; intros [Hs Hf].
  - by open_state st.
  - by open_state st.
  - by open_state st.
  - by open_state st.
  - by open_state st.
  - by open_state st.
  - open_state st. split; [|done].
    rewrite omap_app, user_texts_app. by apply sublist_inserts_r.
  - open_state st.
    destruct sp; simpl; rewrite omap_app, user_texts_app, !forwarded_app; simpl;
      by rewrite !app_nil_r.
  - open_state st. destruct load; simpl; [done|].
    rewrite omap_app, user_texts_app. simpl. by rewrite app_nil_r.
  - open_state st. destruct load; simpl; [|done].
    by rewrite omap_turn_of_detach.
  - open_state st. rewrite forwarded_app.
    destruct c; simpl; rewrite ?app_nil_r; try done. by destruct (Hc' message).
  - by open_state st.
  - by open_state st.
  - revert Hn Ht. open_state st. intros Hn Ht.
    destruct load; simpl;
      rewrite forwarded_app, !omap_app, !user_texts_app; simpl;
      rewrite ?app_nil_r;
      (split; [by apply sublist_app
              |apply Forall_app; split; [done|by constructor]]).
Qed.

(** X17 — The remote session receives only what is on display as a user turn, in
    the order of display, and never a blank message or a reminder command:
    in every page the script can get to, the forwarded messages are a
    sublist of the texts of the user's turns, and none of them starts, in
    any letter case, with the trigger phrase. *)
Theorem forwarded_are_user_turns :
  forall store now events,
    let st := page_state (run events (initial_page store now)) in
    forwarded (calls st) `sublist_of` user_texts (transcript st)
    /\ Forall (fun m => JS.truthy (JS.trim m) = true
                        /\ JS.startsWith (JS.toLowerCase m) "remind me to" = false)
         (forwarded (calls st)).
Proof.
  intros store now events st. subst st.
  destruct (run_change events (initial_page store now)
              (initial_pending_known store now)) as [Hc _].
  apply (change_forwarded _ _ Hc). by split.
Qed.

(** ** Loading what is not JSON *)

Lemma starts_no_json_value_rejected stored :
  starts_no_json_value stored = true ->
  JS.truthy stored = true /\ JSON.parse stored = None.
Proof.
  destruct stored as [|c r]; [done|]. intros H. split; [done|].
  unfold JSON.parse. destruct (Ascii.eqb c "[") eqn:E; [|done].
  apply Ascii.eqb_eq in E. subst c. discriminate H.
Qed.

(** X9 — When the text under the key is not JSON, [loadReminders] throws the
    SyntaxError of [JSON.parse] and leaves the state as it was; the load
    listener ends there, before it sets the greeting timer, so the page is
    exactly as before the event and no greeting will come. *)
Theorem load_of_malformed_text :
  forall p stored,
    localStorage (page_state p) !! "reminders" = Some stored ->
    starts_no_json_value stored = true ->
    Index.loadReminders (page_state p) = (Throw SyntaxError, page_state p)
    /\ handle window_loads p = p.
Proof.
  intros [st pend timer] stored Hs Hbad.
  change (localStorage st !! "reminders" = Some stored) in Hs.
  change (page_state (mkPage st pend timer)) with st.
  destruct (starts_no_json_value_rejected _ Hbad) as [Ht Hp].
  assert (E : Index.loadReminders st = (Throw SyntaxError, st)).
  { by rewrite loadReminders_run, Hs, Ht, Hp. }
  split; [exact E|].
  unfold handle, Index.window_load.
  change (page_state (mkPage st pend timer)) with st. by rewrite E.
Qed.

Lemma load_of_malformed_text_witness :
  let p := initial_page {["reminders" := "undefined"]} 0 in
  Index.loadReminders (page_state p) = (Throw SyntaxError, page_state p)
  /\ handle window_loads p = p.
Proof.
  apply (load_of_malformed_text
           (initial_page {["reminders" := "undefined"]} 0) "undefined");
    reflexivity.
Defined.
